(* ===== verification/_CoqProject ===== *)
-Q . S2P
Prelude.v
JsArray.v
Layer.v
LayerStack.v
Canvas.v
Demo.v
CanvasWf.v
LayerList.v
Gesture.v
Ingest.v
Sidebar.v
App.v
