(* ===== verification/Prelude.v ===== *)
(** * A verification development of canvas-app, an Angular image-layer compositor

    The repository (src/src/app) has three TypeScript sources:
    - [canvas/canvas.component.ts]: [CanvasComponent], which owns the layer
      list [imageLayers], the gesture state [selectedImageLayer], [startX],
      [startY] and the id counter [nextId], draws on a 2D context, and
      handles file loading, the sidebar's four events and the three pointer
      events;
    - [sidebar/sidebar.component.ts]: [SidebarComponent], which keeps its own
      list of picked files with its own id counter and emits
      [fileSelected], [deleteSelected], [moveUpSelected], [moveDownSelected];
    - [app-routing.module.ts]: the two routes ['' -> HomeComponent] and
      ['canvas' -> CanvasComponent].
    The sidebar's events reach the canvas through the application template
    (not under src/, modelled from the spec's section 6 and marked so in the
    manifest). Loading a file is asynchronous: the canvas starts a
    [FileReader] and its [onload] closure later decodes the image and, in
    the image's [onload] closure, pushes a new layer.

    ** Layout of the development (files in dependency order)

    - [Prelude] (this file): the JS evaluation monad [js S A] (state passing
      with exceptions that keep the state reached, as a thrown JS exception
      does not undo earlier mutations), its notations in [js_scope], the
      tactics [js_unfold], [zcase] and [js_step], the hint databases
      [canvas] and [canvas_rw], and list lemmas ([swap_at], [omap] over live
      references) shared by the components.
    - [JsArray]: the part of the JavaScript array semantics the sources use:
      arrays whose slots hold a value or [undefined], reads and writes by
      number index (a negative index writes a plain property, not a slot),
      [push], and the callback methods [findIndex], [find], [filter],
      [forEach] whose callbacks may throw.
    - [Layer]: [File], [Image], the [ImageLayer] interface, the pure
      predicates [isMouseOverLayer] and [inResizeHandle] and the 2D context
      as a fill style plus a log of drawing commands.
    - [LayerStack]: the abstract specification of the layer list (spec
      sections 3 and 4.4): delete by id, move up, move down, append.
    - [Canvas]: [CanvasComponent] as a record of its fields plus the heap of
      layer objects (the array and [selectedImageLayer] hold references, so
      the aliasing of the source is kept) and the queue of pending reads, and
      one definition per method: [setupCanvas], the [file] setter, the
      reader's and the image's [onload] closures ([file_loaded],
      [img_onload]), [redrawCanvas], [drawResizeHandles], [onDeleteSelected],
      [onMoveUpSelected], [onMoveDownSelected], [onMouseDown], [onMouseUp],
      [onMouseMove]. The canvas element's size is a section variable.
    - [Demo]: two small canvases reached by loading files, used by witnesses.
    - [CanvasWf]: the invariant [canvas_wf] (every slot holds a live layer,
      ids unique and equal to their reference, references below [nextId],
      sizes within the canvas, handle size 10, the selection live), the
      abstraction [view] to a list of layers, and the exact effect of each
      list handler and of [redrawCanvas] on well-formed states.
    - [LayerList]: the refinement theorems for delete, move up and move down
      against [LayerStack], the move-down defect on unknown ids and the
      permanent corruption it leaves.
    - [Gesture]: the pointer state machine [gesture_step] of the spec and
      the refinement of the three mouse handlers to it, exclusivity of the
      two flags when presses and releases alternate, incremental drag,
      guarded resize, and what a lost release does: a press on the handle
      of the dragged layer sets both flags, and the next move both drags
      and resizes it.
    - [Ingest]: a completed read (decodable or not), and loading N files in
      order gives ids 0..N-1.
    - [Sidebar]: [SidebarComponent], its four outputs, and a listener record
      [SidebarListener] that states what a component bound to the outputs
      provides.
    - [App]: the routing table, and the page: the sidebar bound to the canvas
      through [canvas_listener], pointer events and read completions in any
      order, as a step function [app_step] over UI events. The invariant
      [synced] says that the sidebar's entries are, up to order, the canvas's
      layers followed by the pending reads with the ids they will receive; it
      holds on every run of good events ([app_run_synced]), and each of the
      ways it breaks (a file that does not decode, reads completing out of
      order, deleting a loading entry) is a theorem with a concrete trace.

    ** Modelling choices

    Coordinates, sizes and ids are JavaScript numbers; the model uses [Z]
    (integral pixel offsets, integral image sizes; all values stay far below
    2^53, where doubles are exact). [handleSize / 2] is [Z.div], which agrees
    with JS division because the only handle size the code creates is 10.
    Rendering is a log of [CanvasRenderingContext2D] calls; pixels are not
    modelled. The decoding of a file by the browser is an external oracle:
    a [File] carries the natural size it decodes to, or [None]. Every
    definition is total and computable (no fuel is needed: the handlers
    contain no loops other than the array methods, which recurse on the
    array), so witnesses evaluate them with [vm_compute].

    ** Not modelled

    [HomeComponent], the HTML templates and the styles are not under src/;
    of the templates only the event bindings matter and they are modelled
    from the spec. DOM state (resetting the file input, canvas element
    lookup) and pixel output are not modelled. Array holes are not
    distinguished from [undefined]: the code never creates a hole.
*)
From stdpp Require Export base list gmap strings.
From Stdlib Require Export ZArith Lia.

Declare Scope js_scope.
Delimit Scope js_scope with js.
Open Scope Z_scope.

(** ** The JS evaluation monad *)

(** The exceptions the modelled code can raise: reading a property of
    [undefined] is a [TypeError]. *)
Inductive exn := TypeError.

Inductive outcome (A : Type) :=
| Normal (a : A)
| Thrown (e : exn).
Arguments Normal {A} a.
Arguments Thrown {A} e.

(** A computation reads and updates a state and either returns normally or
    throws; in both cases the state reached is kept. *)
Definition js (S A : Type) : Type := S -> outcome A * S.

#[export] Instance js_mret S : MRet (js S) := fun _ a s => (Normal a, s).
#[export] Instance js_mbind S : MBind (js S) :=
  fun _ _ k m s =>
    match m s with
    | (Normal a, s') => k a s'
    | (Thrown e, s') => (Thrown e, s')
    end.

Definition throw {S A} (e : exn) : js S A := fun s => (Thrown e, s).
Definition get_st {S} : js S S := fun s => (Normal s, s).
Definition put_st {S} (s : S) : js S unit := fun _ => (Normal tt, s).
Definition modify_st {S} (f : S -> S) : js S unit := fun s => (Normal tt, f s).

(** Lift a pure computation that may throw. *)
Definition lift_out {S A} (o : outcome A) : js S A := fun s => (o, s).

(** Bind on pure outcomes (callbacks that only read). *)
Definition out_bind {A B} (o : outcome A) (k : A -> outcome B) : outcome B :=
  match o with Normal a => k a | Thrown e => Thrown e end.

Notation "'undefined'" := None (only parsing) : js_scope.
Notation "'let!' x := o 'in' k" := (out_bind o (fun x => k))
  (at level 100, x name, o at level 100, k at level 200) : js_scope.
Notation "m ⇓ s" := (fst (m s)) (at level 60, no associativity) : js_scope.
Notation "m ↦ s" := (snd (m s)) (at level 60, no associativity) : js_scope.
Open Scope js_scope.

(** The outcome of running [m] for its effect only: the state reached. *)
Definition exec {S A} (m : js S A) (s : S) : S := snd (m s).

(** ** Monad laws *)

Lemma exec_normal {S} (m : js S unit) st :
  m ⇓ st = Normal tt -> m st = (Normal tt, exec m st).
Proof. unfold exec. destruct (m st) as [o s]. simpl. by intros ->. Qed.

Lemma js_bind_ret_l {S A B} (a : A) (k : A -> js S B) :
  (mret a ≫= k) = k a.
Proof. reflexivity. Qed.

Lemma js_bind_assoc {S A B C} (m : js S A) (k : A -> js S B) (h : B -> js S C) s :
  ((m ≫= k) ≫= h) s = (m ≫= (fun a => k a ≫= h)) s.
Proof. cbv [mbind js_mbind]. destruct (m s) as [[a|e] s']; reflexivity. Qed.

Lemma js_bind_run {S A B} (m : js S A) (k : A -> js S B) s :
  (m ≫= k) s = match m s with
               | (Normal a, s') => k a s'
               | (Thrown e, s') => (Thrown e, s')
               end.
Proof. reflexivity. Qed.

Lemma js_bind_normal {S A B} (m : js S A) (k : A -> js S B) s a s' :
  m s = (Normal a, s') -> (m ≫= k) s = k a s'.
Proof. intros H. rewrite js_bind_run, H. reflexivity. Qed.

Lemma js_bind_thrown {S A B} (m : js S A) (k : A -> js S B) s e s' :
  m s = (Thrown e, s') -> (m ≫= k) s = (Thrown e, s').
Proof. intros H. rewrite js_bind_run, H. reflexivity. Qed.

Lemma exec_bind_normal {S A} (m : js S unit) (k : unit -> js S A) s :
  m ⇓ s = Normal tt -> exec (m ≫= k) s = exec (k tt) (exec m s).
Proof. intros H. unfold exec. rewrite js_bind_run. destruct (m s) as [o s']. simpl in *. by subst. Qed.

Lemma out_bind_normal {S A} (m : js S unit) (k : unit -> js S A) s :
  m ⇓ s = Normal tt -> (m ≫= k) ⇓ s = (k tt) ⇓ (exec m s).
Proof. intros H. unfold exec. rewrite js_bind_run. destruct (m s) as [o s']. simpl in *. by subst. Qed.

(** ** Tactics *)

(** Unfold the monad so that [simpl] runs a computation on a state. *)
Ltac js_unfold :=
  cbv [mbind js_mbind mret js_mret throw get_st put_st modify_st lift_out exec] in *.

(** Case on the boolean comparisons of [Z] that the handlers' guards use. *)
Ltac zcase :=
  repeat match goal with
  | |- context [Z.leb ?a ?b] => destruct (Z.leb_spec a b)
  | |- context [Z.ltb ?a ?b] => destruct (Z.ltb_spec a b)
  | |- context [Z.eqb ?a ?b] => destruct (Z.eqb_spec a b)
  | H : context [Z.leb ?a ?b] |- _ => destruct (Z.leb_spec a b)
  | H : context [Z.ltb ?a ?b] |- _ => destruct (Z.ltb_spec a b)
  | H : context [Z.eqb ?a ?b] |- _ => destruct (Z.eqb_spec a b)
  end.

Create HintDb canvas discriminated.
Create Rewrite HintDb canvas_rw.

(** ** Generic lemmas on lists and numbers shared by the components *)

Lemma Z_to_nat_lt_length {A} (l : list A) (i : Z) :
  0 <= i < Z.of_nat (length l) -> (Z.to_nat i < length l)%nat.
Proof. lia. Qed.

Lemma lookup_app_last {A} (l : list A) (x : A) :
  (l ++ [x]) !! length l = Some x.
Proof. rewrite lookup_app_r by lia. by rewrite Nat.sub_diag. Qed.

(** Swapping two adjacent positions of a list, as a list. *)
Definition swap_at {A} (i j : nat) (l : list A) : list A :=
  match l !! i, l !! j with
  | Some x, Some y => <[j:=x]> (<[i:=y]> l)
  | _, _ => l
  end.

Lemma length_swap_at {A} (i j : nat) (l : list A) :
  length (swap_at i j l) = length l.
Proof.
  unfold swap_at. destruct (l !! i), (l !! j); rewrite ?length_insert; done.
Qed.

#[export] Hint Rewrite @length_swap_at @length_insert @length_app : canvas_rw.

(** ** Lists seen through a partial map whose every element is defined

    The canvas stores references; the layers they point to are read through
    the heap, a partial map. When every reference is live, the list of
    layers is [omap (heap !!) refs], and list operations on references
    commute with it. *)
Section OmapLive.
Context {A B : Type} (f : A -> option B).

Definition all_live (l : list A) : Prop := Forall (fun a => is_Some (f a)) l.

Lemma omap_cons_eq a l :
  omap f (a :: l) = match f a with Some b => b :: omap f l | None => omap f l end.
Proof. reflexivity. Qed.

Lemma length_omap_live l : all_live l -> length (omap f l) = length l.
Proof.
  induction 1 as [|a l [b Hb] _ IH]; [done|]. rewrite omap_cons_eq, Hb. simpl. by rewrite IH.
Qed.

Lemma lookup_omap_live l i a :
  all_live l -> l !! i = Some a -> omap f l !! i = f a.
Proof.
  intros Hl. revert i. induction Hl as [|a' l [b Hb] _ IH]; intros i Hi; [done|].
  rewrite omap_cons_eq, Hb. destruct i as [|i]; simpl in *; [by simplify_eq|]. auto.
Qed.

Lemma all_live_insert l i a : all_live l -> is_Some (f a) -> all_live (<[i:=a]> l).
Proof. intros Hl Ha. unfold all_live. by apply Forall_insert. Qed.

Lemma omap_insert_live l i a b :
  all_live l -> f a = Some b -> omap f (<[i:=a]> l) = <[i:=b]> (omap f l).
Proof.
  intros Hl Ha. revert i. induction Hl as [|a' l [b' Hb'] _ IH]; intros i; [done|].
  destruct i as [|i]; cbn [insert list_insert]; rewrite !omap_cons_eq, ?Ha, ?Hb'; [done|]. by rewrite IH.
Qed.

Lemma omap_swap_at_live l i j :
  all_live l -> omap f (swap_at i j l) = swap_at i j (omap f l).
Proof.
  intros Hl. unfold swap_at.
  destruct (l !! i) as [a|] eqn:Ha, (l !! j) as [c|] eqn:Hc.
  - rewrite (lookup_omap_live l i a), (lookup_omap_live l j c) by done.
    destruct (Forall_lookup_1 _ _ _ _ Hl Ha) as [b Hb].
    destruct (Forall_lookup_1 _ _ _ _ Hl Hc) as [d Hd]. rewrite Hb, Hd.
    rewrite (omap_insert_live _ j a b); [|apply all_live_insert; eauto|done].
    by rewrite (omap_insert_live _ i c d).
  - rewrite (lookup_omap_live l i a) by done.
    destruct (Forall_lookup_1 _ _ _ _ Hl Ha) as [b Hb]. rewrite Hb.
    rewrite lookup_ge_None_2; [done|]. rewrite length_omap_live by done.
    by apply lookup_ge_None_1.
  - rewrite lookup_ge_None_2; [done|]. rewrite length_omap_live by done.
    by apply lookup_ge_None_1.
  - rewrite lookup_ge_None_2; [done|]. rewrite length_omap_live by done.
    by apply lookup_ge_None_1.
Qed.

Lemma omap_filter_live (P : A -> Prop) (Q : B -> Prop)
    `{!forall a, Decision (P a)} `{!forall b, Decision (Q b)} (l : list A) :
  (forall a b, f a = Some b -> P a <-> Q b) ->
  omap f (filter P l) = filter Q (omap f l).
Proof.
  intros HPQ. induction l as [|a l IH]; [done|]. rewrite filter_cons, omap_cons_eq.
  destruct (f a) as [b|] eqn:Hb; destruct (decide (P a)) as [Hp|Hp];
    rewrite ?omap_cons_eq, ?Hb, ?IH, ?filter_cons; try done.
  - by rewrite decide_True by (by apply (HPQ a b)).
  - by rewrite decide_False by (by rewrite <- (HPQ a b)).
Qed.

End OmapLive.

Lemma swap_at_perm {A} (i j : nat) (l : list A) : swap_at i j l ≡ₚ l.
Proof.
  unfold swap_at. destruct (l !! i) eqn:Hi, (l !! j) eqn:Hj; try done.
  by apply Permutation_insert_swap.
Qed.

(** Run the first bind of a computation applied to a state, and reduce the
    primitive operations that come next. *)
Ltac js_step := rewrite js_bind_run; cbv [get_st modify_st put_st lift_out mret js_mret].
