(* ===== verification/JsArray.v ===== *)
(** * JavaScript arrays, as far as the canvas component uses them

    A JS array is modelled by its index slots, each holding a value or
    [undefined], and by the plain properties written through negative
    number keys ([a[-1] = v] does not touch the slots nor the length).
    The callback methods [findIndex], [find], [filter] and [forEach] visit
    the slots in order and propagate an exception thrown by the callback.
    An array built from a list of values ([arr_of]) is "clean"; the lemmas
    of this file relate the methods on clean arrays to pure list functions. *)
From S2P Require Import Prelude.

Section JsArray.
Context {A : Type}.

Record jsarray := JsArr {
  slots : list (option A);
  props : gmap Z (option A)
}.

(** The array literal [[x0, ..., xn]]. *)
Definition arr_of (l : list A) : jsarray := JsArr (Some <$> l) ∅.

Definition js_length (a : jsarray) : Z := Z.of_nat (length (slots a)).

(** [a[i]] for a number [i]: a slot, a property, or [undefined]. *)
Definition js_index_get (a : jsarray) (i : Z) : option A :=
  if 0 <=? i then from_option id None (slots a !! Z.to_nat i)
  else from_option id None (props a !! i).

(** [a[i] = v]: a negative key writes a property; an index past the end
    extends the array with [undefined] up to [i]. *)
Definition js_index_set (a : jsarray) (i : Z) (v : option A) : jsarray :=
  if i <? 0 then JsArr (slots a) (<[i:=v]> (props a))
  else if i <? js_length a then JsArr (<[Z.to_nat i:=v]> (slots a)) (props a)
  else JsArr (slots a ++ replicate (Z.to_nat i - length (slots a)) None ++ [v]) (props a).

Definition js_push (a : jsarray) (x : A) : jsarray :=
  JsArr (slots a ++ [Some x]) (props a).

(** The destructuring swap [[a[i], a[j]] = [a[j], a[i]]]: the right-hand
    array literal is evaluated first, then [a[i]] and [a[j]] are assigned
    in this order. *)
Definition js_swap (a : jsarray) (i j : Z) : jsarray :=
  let r0 := js_index_get a j in
  let r1 := js_index_get a i in
  js_index_set (js_index_set a i r0) j r1.

Fixpoint find_index_from (p : option A -> outcome bool) (l : list (option A)) (i : Z)
  : outcome Z :=
  match l with
  | [] => Normal (-1)
  | v :: l' => let! b := p v in if b then Normal i else find_index_from p l' (i + 1)
  end.

(** [a.findIndex(p)]: the first index where [p] holds, or [-1]. *)
Definition js_findIndex (p : option A -> outcome bool) (a : jsarray) : outcome Z :=
  find_index_from p (slots a) 0.

Fixpoint find_in (p : option A -> outcome bool) (l : list (option A)) : outcome (option A) :=
  match l with
  | [] => Normal None
  | v :: l' => let! b := p v in if b then Normal v else find_in p l'
  end.

(** [a.find(p)]: the first element where [p] holds, or [undefined]. *)
Definition js_find (p : option A -> outcome bool) (a : jsarray) : outcome (option A) :=
  find_in p (slots a).

Fixpoint filter_in (p : option A -> outcome bool) (l : list (option A))
  : outcome (list (option A)) :=
  match l with
  | [] => Normal []
  | v :: l' =>
      let! b := p v in
      let! r := filter_in p l' in
      Normal (if b then v :: r else r)
  end.

(** [a.filter(p)]: a fresh array of the elements where [p] holds. *)
Definition js_filter (p : option A -> outcome bool) (a : jsarray) : outcome jsarray :=
  let! l := filter_in p (slots a) in Normal (JsArr l ∅).

Fixpoint for_each_in {S} (f : option A -> js S unit) (l : list (option A)) : js S unit :=
  match l with
  | [] => mret tt
  | v :: l' => f v ;; for_each_in f l'
  end.

(** [a.forEach(f)] *)
Definition js_forEach {S} (f : option A -> js S unit) (a : jsarray) : js S unit :=
  for_each_in f (slots a).

(** ** Pure counterparts on lists *)

(** The index of the first element satisfying [f], or [-1]. *)
Fixpoint first_index (f : A -> bool) (l : list A) : Z :=
  match l with
  | [] => -1
  | x :: l' => if f x then 0 else
                 let r := first_index f l' in if r <? 0 then -1 else r + 1
  end.

Fixpoint first_match (f : A -> bool) (l : list A) : option A :=
  match l with
  | [] => None
  | x :: l' => if f x then Some x else first_match f l'
  end.

(** A callback that computes [f] on every defined element. *)
Definition total_on (p : option A -> outcome bool) (f : A -> bool) (l : list A) : Prop :=
  Forall (fun x => p (Some x) = Normal (f x)) l.

End JsArray.
Arguments jsarray : clear implicits.
Arguments JsArr {A} slots props.

Section JsArrayFacts.
Context {A : Type}.
Implicit Types (l : list A) (a : jsarray A).

Lemma first_index_bounds (f : A -> bool) l :
  -1 <= first_index f l < Z.of_nat (length l).
Proof. induction l as [|x l IH]; simpl; [lia|]. destruct (f x); zcase; lia. Qed.

Lemma find_index_from_shift (p : option A -> outcome bool) (f : A -> bool) l i :
  total_on p f l ->
  find_index_from p (Some <$> l) i =
  Normal (if first_index f l <? 0 then -1 else first_index f l + i).
Proof.
  unfold total_on. revert i. induction l as [|x l IH]; intros i Hl; [done|].
  inversion Hl as [|? ? Hx Hl']; subst. simpl. rewrite Hx. simpl.
  destruct (f x); [done|]. rewrite IH by done. zcase; f_equal; lia.
Qed.

Lemma js_findIndex_clean (p : option A -> outcome bool) (f : A -> bool) l :
  total_on p f l -> js_findIndex p (arr_of l) = Normal (first_index f l).
Proof.
  intros H. unfold js_findIndex, arr_of. simpl. rewrite (find_index_from_shift _ f) by done.
  pose proof (first_index_bounds f l). zcase; f_equal; lia.
Qed.

Lemma js_find_clean (p : option A -> outcome bool) (f : A -> bool) l :
  total_on p f l -> js_find p (arr_of l) = Normal (first_match f l).
Proof.
  unfold total_on, js_find, arr_of. simpl. induction 1 as [|x l Hx Hl IH]; [done|].
  simpl. rewrite Hx. simpl. by destruct (f x).
Qed.

Lemma filter_in_clean (p : option A -> outcome bool) (f : A -> bool) l :
  total_on p f l -> filter_in p (Some <$> l) = Normal (Some <$> filter (fun x => f x = true) l).
Proof.
  induction 1 as [|x l Hx Hl IH]; [done|]. rewrite fmap_cons. cbn [filter_in]. rewrite Hx, IH. simpl.
  rewrite filter_cons. by destruct (f x).
Qed.

Lemma js_filter_clean (p : option A -> outcome bool) (f : A -> bool) l :
  total_on p f l -> js_filter p (arr_of l) = Normal (arr_of (filter (fun x => f x = true) l)).
Proof. intros H. unfold js_filter, arr_of. simpl. by rewrite (filter_in_clean p f). Qed.

Lemma js_push_clean l x : js_push (arr_of l) x = arr_of (l ++ [x]).
Proof. unfold js_push, arr_of. simpl. by rewrite fmap_app. Qed.

Lemma js_index_get_clean l (i : nat) :
  js_index_get (arr_of l) (Z.of_nat i) = l !! i.
Proof.
  unfold js_index_get, arr_of. simpl. zcase; [|lia].
  rewrite Nat2Z.id, list_lookup_fmap. by destruct (l !! i).
Qed.

Lemma js_index_set_in_range a (i : Z) v :
  0 <= i < js_length a -> js_index_set a i v = JsArr (<[Z.to_nat i:=v]> (slots a)) (props a).
Proof. unfold js_index_set. intros. zcase; first [lia | done]. Qed.

(** A swap of two in-range positions of a clean array is a list swap. *)
Lemma js_swap_clean l (i j : nat) :
  (i < length l)%nat -> (j < length l)%nat ->
  js_swap (arr_of l) (Z.of_nat i) (Z.of_nat j) = arr_of (swap_at i j l).
Proof.
  intros Hi Hj. unfold js_swap. rewrite !js_index_get_clean.
  destruct (lookup_lt_is_Some_2 l i Hi) as [x Hx].
  destruct (lookup_lt_is_Some_2 l j Hj) as [y Hy].
  unfold swap_at. rewrite Hx, Hy.
  rewrite (js_index_set_in_range (arr_of l)) by (unfold js_length, arr_of; cbn [slots]; rewrite length_fmap; lia).
  rewrite js_index_set_in_range by (unfold js_length, arr_of; cbn [slots]; rewrite length_insert, length_fmap; lia).
  unfold arr_of. simpl. by rewrite !Nat2Z.id, !list_fmap_insert.
Qed.

(** A swap of the property [-1] with slot [0] of a clean nonempty array
    stores [undefined] in slot 0 (the property [-1] was never written). *)
Lemma js_swap_minus_one l x :
  js_swap (arr_of (x :: l)) (-1) 0 = JsArr (None :: (Some <$> l)) {[-1 := Some x]}.
Proof.
  unfold js_swap, js_index_set, js_index_get, js_length, arr_of. simpl.
  rewrite insert_empty. reflexivity.
Qed.

(** [forEach] over a clean array runs the callback on each element. *)
Lemma js_forEach_clean {S} (f : option A -> js S unit) l :
  js_forEach f (arr_of l) = for_each_in f (Some <$> l).
Proof. reflexivity. Qed.

Lemma first_index_spec (f : A -> bool) l (i : nat) :
  first_index f l = Z.of_nat i ->
  exists x, l !! i = Some x /\ f x = true /\ forall j y, (j < i)%nat -> l !! j = Some y -> f y = false.
Proof.
  revert i. induction l as [|x l IH]; intros i; simpl; [lia|].
  destruct (f x) eqn:Hf.
  - intros Hi. assert (i = 0%nat) as -> by lia. exists x. split_and!; auto; lia.
  - zcase; [lia|]. intros Hi. destruct i as [|i]; [lia|].
    destruct (IH i) as (y & Hy & Hfy & Hbefore); [lia|].
    exists y. split_and!; auto. intros [|j] z Hj Hz; simpl in Hz; [congruence|].
    apply (Hbefore j); auto; lia.
Qed.

Lemma first_index_none (f : A -> bool) l :
  first_index f l = -1 <-> Forall (fun x => f x = false) l.
Proof.
  induction l as [|x l IH]; simpl; [split; auto|].
  rewrite Forall_cons. destruct (f x) eqn:Hf; [split; [lia|intros [? _]; congruence]|].
  pose proof (first_index_bounds f l). zcase; rewrite <- IH; split; try lia; intuition lia.
Qed.

Lemma first_match_spec (f : A -> bool) l x :
  first_match f l = Some x ->
  exists i, l !! i = Some x /\ f x = true /\ forall j y, (j < i)%nat -> l !! j = Some y -> f y = false.
Proof.
  induction l as [|y l IH]; simpl; [done|]. destruct (f y) eqn:Hf.
  - intros [= ->]. exists 0%nat. split_and!; auto; lia.
  - intros H. destruct (IH H) as (i & Hi & Hx & Hb). exists (S i). split_and!; auto.
    intros [|j] z Hj Hz; simpl in Hz; [congruence|]. apply (Hb j); auto; lia.
Qed.

Lemma first_match_None (f : A -> bool) l :
  first_match f l = None <-> Forall (fun x => f x = false) l.
Proof.
  induction l as [|y l IH]; simpl; [split; auto|]. rewrite Forall_cons.
  destruct (f y) eqn:Hf; [split; [done|intros [? _]; congruence]|]. rewrite IH. tauto.
Qed.

End JsArrayFacts.

#[export] Hint Rewrite @js_push_clean @js_index_get_clean : canvas_rw.

(** [first_index] through a partial map whose elements are all defined. *)
Lemma first_index_omap_live {A B} (m : A -> option B) (g : A -> bool) (h : B -> bool) (l : list A) :
  all_live m l -> (forall a b, m a = Some b -> g a = h b) ->
  first_index g l = first_index h (omap m l).
Proof.
  intros Hl Hgh. induction Hl as [|a l [b Hb] _ IH]; [done|].
  rewrite omap_cons_eq, Hb. simpl. by rewrite (Hgh a b Hb), IH.
Qed.

Lemma js_swap_clean_Z {A} (l : list A) (i j : Z) :
  0 <= i < Z.of_nat (length l) -> 0 <= j < Z.of_nat (length l) ->
  js_swap (arr_of l) i j = arr_of (swap_at (Z.to_nat i) (Z.to_nat j) l).
Proof.
  intros Hi Hj. rewrite <- (Z2Nat.id i) at 1 by lia. rewrite <- (Z2Nat.id j) at 1 by lia.
  apply js_swap_clean; lia.
Qed.
