(* ===== verification/Layer.v ===== *)
(** * Layers, images and the drawing context (canvas.component.ts)

    The [ImageLayer] interface with the source's field names, the decoded
    image and the file it came from, the two pure hit tests of the
    component ([isMouseOverLayer] and the corner-handle test of
    [onMouseDown]), and the [CanvasRenderingContext2D] as the current fill
    style plus the log of the drawing calls made on it. *)
From S2P Require Import Prelude.

(** A file chosen in the file picker. The browser decodes it to an image
    of a natural size, or fails to ([file_dims = None]); decoding is not
    code of the repository, so the outcome is part of the file. *)
Record File := MkFile {
  file_name : string;
  file_dims : option (Z * Z)
}.

(** A decoded [HTMLImageElement]: the file of its data URL and its size. *)
Record Image := MkImage {
  img_file : File;
  img_width : Z;
  img_height : Z
}.

(** [interface ImageLayer] (canvas.component.ts, lines 3-13). *)
Record ImageLayer := MkLayer {
  id : Z;
  image : Image;
  x : Z;
  y : Z;
  width : Z;
  height : Z;
  isDragging : bool;
  isResizing : bool;
  resizeHandleSize : Z
}.

Definition set_isDragging (b : bool) (l : ImageLayer) : ImageLayer :=
  MkLayer (id l) (image l) (x l) (y l) (width l) (height l) b (isResizing l) (resizeHandleSize l).
Definition set_isResizing (b : bool) (l : ImageLayer) : ImageLayer :=
  MkLayer (id l) (image l) (x l) (y l) (width l) (height l) (isDragging l) b (resizeHandleSize l).
Definition set_x (v : Z) (l : ImageLayer) : ImageLayer :=
  MkLayer (id l) (image l) v (y l) (width l) (height l) (isDragging l) (isResizing l) (resizeHandleSize l).
Definition set_y (v : Z) (l : ImageLayer) : ImageLayer :=
  MkLayer (id l) (image l) (x l) v (width l) (height l) (isDragging l) (isResizing l) (resizeHandleSize l).
Definition set_width (v : Z) (l : ImageLayer) : ImageLayer :=
  MkLayer (id l) (image l) (x l) (y l) v (height l) (isDragging l) (isResizing l) (resizeHandleSize l).
Definition set_height (v : Z) (l : ImageLayer) : ImageLayer :=
  MkLayer (id l) (image l) (x l) (y l) (width l) v (isDragging l) (isResizing l) (resizeHandleSize l).

(** [isMouseOverLayer(mouseX, mouseY, layer)] (lines 174-177): the closed
    rectangle of the layer. *)
Definition isMouseOverLayer (mouseX mouseY : Z) (layer : ImageLayer) : bool :=
  (x layer <=? mouseX) && (mouseX <=? x layer + width layer) &&
  (y layer <=? mouseY) && (mouseY <=? y layer + height layer).

(** The corner-handle test of [onMouseDown] (lines 121-125): a square of
    side [handleSize] centred on the bottom-right corner. *)
Definition inResizeHandle (offsetX offsetY : Z) (layer : ImageLayer) : bool :=
  let handleSize := resizeHandleSize layer in
  (x layer + width layer - handleSize / 2 <=? offsetX) &&
  (offsetX <=? x layer + width layer + handleSize / 2) &&
  (y layer + height layer - handleSize / 2 <=? offsetY) &&
  (offsetY <=? y layer + height layer + handleSize / 2).

(** ** The 2D context *)

Inductive DrawCmd :=
| ClearRect (x y w h : Z)
| FillRect (style : string) (x y w h : Z)
| DrawImage (img : Image) (x y w h : Z).

Record Ctx2D := MkCtx {
  fillStyle : string;
  drawn : list DrawCmd
}.

Definition ctx_setFillStyle (s : string) (c : Ctx2D) : Ctx2D := MkCtx s (drawn c).
Definition ctx_clearRect (x0 y0 w h : Z) (c : Ctx2D) : Ctx2D :=
  MkCtx (fillStyle c) (drawn c ++ [ClearRect x0 y0 w h]).
Definition ctx_fillRect (x0 y0 w h : Z) (c : Ctx2D) : Ctx2D :=
  MkCtx (fillStyle c) (drawn c ++ [FillRect (fillStyle c) x0 y0 w h]).
Definition ctx_drawImage (img : Image) (x0 y0 w h : Z) (c : Ctx2D) : Ctx2D :=
  MkCtx (fillStyle c) (drawn c ++ [DrawImage img x0 y0 w h]).

(** The context of a fresh canvas element. *)
Definition ctx_init : Ctx2D := MkCtx "#000000" [].

(** ** Facts on the hit tests *)

Lemma isMouseOverLayer_spec mx my l :
  isMouseOverLayer mx my l = true <->
  x l <= mx <= x l + width l /\ y l <= my <= y l + height l.
Proof.
  unfold isMouseOverLayer. rewrite !andb_true_iff, !Z.leb_le. tauto.
Qed.

Lemma inResizeHandle_spec ox oy l :
  inResizeHandle ox oy l = true <->
  x l + width l - resizeHandleSize l / 2 <= ox <= x l + width l + resizeHandleSize l / 2 /\
  y l + height l - resizeHandleSize l / 2 <= oy <= y l + height l + resizeHandleSize l / 2.
Proof.
  unfold inResizeHandle. rewrite !andb_true_iff, !Z.leb_le. tauto.
Qed.

(** The handle extends half a handle beyond the corner, so a point can be on
    the handle and outside the layer. *)
Lemma handle_outside_layer :
  let l := MkLayer 0 (MkImage (MkFile "a.png" (Some (50, 50))) 50 50) 50 50 50 50 false false 10 in
  inResizeHandle 104 104 l = true /\ isMouseOverLayer 104 104 l = false.
Proof. split; reflexivity. Qed.

Lemma set_isDragging_id b l : id (set_isDragging b l) = id l.
Proof. reflexivity. Qed.
Lemma set_isResizing_id b l : id (set_isResizing b l) = id l.
Proof. reflexivity. Qed.

#[export] Hint Rewrite set_isDragging_id set_isResizing_id : canvas_rw.

(** Unfold the context operations to their record. *)
Ltac ctx_unfold := cbv [ctx_setFillStyle ctx_clearRect ctx_fillRect ctx_drawImage] in *.
