(* ===== verification/LayerStack.v ===== *)
(** * The layer list as the spec describes it

    An abstract specification of the layer list (spec sections 3 and 4.4):
    a list of layers in paint order, with deletion by id and the two
    adjacent-swap reorderings, which are no-ops on an unknown id and at the
    respective boundary. [CanvasWf] proves that the component's handlers
    implement these operations on the layers they show. *)
From S2P Require Import Prelude JsArray Layer.

Module LayerStack.

(** The position of the first layer with id [i], or [-1]. *)
Definition index_of (i : Z) (ls : list ImageLayer) : Z :=
  first_index (fun o => id o =? i) ls.

Definition delete (i : Z) (ls : list ImageLayer) : list ImageLayer :=
  filter (fun o => id o <> i) ls.

Definition move_up (i : Z) (ls : list ImageLayer) : list ImageLayer :=
  let k := index_of i ls in
  if 0 <? k then swap_at (Z.to_nat k) (Z.to_nat (k - 1)) ls else ls.

Definition move_down (i : Z) (ls : list ImageLayer) : list ImageLayer :=
  let k := index_of i ls in
  if (0 <=? k) && (k <? Z.of_nat (length ls) - 1)
  then swap_at (Z.to_nat k) (Z.to_nat (k + 1)) ls else ls.

Definition add (o : ImageLayer) (ls : list ImageLayer) : list ImageLayer := ls ++ [o].

Lemma elem_of_delete i ls o : o ∈ delete i ls <-> o ∈ ls /\ id o <> i.
Proof. unfold delete. rewrite list_elem_of_filter. tauto. Qed.

Lemma move_up_perm i ls : move_up i ls ≡ₚ ls.
Proof. unfold move_up. destruct (0 <? _); [apply swap_at_perm|done]. Qed.

Lemma move_down_perm i ls : move_down i ls ≡ₚ ls.
Proof. unfold move_down. destruct (_ && _); [apply swap_at_perm|done]. Qed.

Lemma index_of_unknown i ls : Forall (fun o => id o <> i) ls -> index_of i ls = -1.
Proof.
  intros H. apply first_index_none. eapply Forall_impl; [exact H|]. simpl.
  intros o Ho. by apply Z.eqb_neq.
Qed.

End LayerStack.
