(* ===== verification/Canvas.v ===== *)
(** * CanvasComponent (src/src/app/canvas/canvas.component.ts)

    The component's fields, the heap of layer objects the array and
    [selectedImageLayer] point into, and one definition per method or
    closure of the class, each in the [js] monad of the prelude so that a
    [TypeError] thrown half-way keeps the mutations made before it.
    The canvas element's [width] and [height] are the section variables
    [canvasWidth] and [canvasHeight]. *)
From S2P Require Import Prelude JsArray Layer.

(** References to layer objects. A layer object is allocated only by the
    image [onload] closure, which gives it the fresh id [nextId]; the model
    uses that id as the object's address. *)
Abbreviation loc := Z.

Record CanvasComponent := MkCanvas {
  imageLayers : jsarray loc;
  selectedImageLayer : option loc;
  nextId : Z;
  startX : Z;
  startY : Z;
  heap : gmap loc ImageLayer;
  crc : Ctx2D;
  (** the [FileReader] jobs started by the [file] setter, not yet loaded *)
  pending : list File
}.

Definition set_imageLayers a c :=
  MkCanvas a (selectedImageLayer c) (nextId c) (startX c) (startY c) (heap c) (crc c) (pending c).
Definition set_selected s c :=
  MkCanvas (imageLayers c) s (nextId c) (startX c) (startY c) (heap c) (crc c) (pending c).
Definition set_start sx sy c :=
  MkCanvas (imageLayers c) (selectedImageLayer c) (nextId c) sx sy (heap c) (crc c) (pending c).
Definition set_heap h c :=
  MkCanvas (imageLayers c) (selectedImageLayer c) (nextId c) (startX c) (startY c) h (crc c) (pending c).
Definition set_crc k c :=
  MkCanvas (imageLayers c) (selectedImageLayer c) (nextId c) (startX c) (startY c) (heap c) k (pending c).
Definition set_pending p c :=
  MkCanvas (imageLayers c) (selectedImageLayer c) (nextId c) (startX c) (startY c) (heap c) (crc c) p.

(** The field initialisers (lines 24-29) and a fresh context. *)
Definition canvas_fields : CanvasComponent :=
  MkCanvas (arr_of []) None 0 0 0 ∅ ctx_init [].

Abbreviation CM := (js CanvasComponent).

(** Reading a property of the value [v]: [undefined] throws. A reference
    not in the heap does not arise (objects are never freed); it is mapped
    to the same exception to keep the function total. *)
Definition deref_in (h : gmap loc ImageLayer) (v : option loc) : outcome ImageLayer :=
  match v with
  | Some l => match h !! l with Some o => Normal o | None => Thrown TypeError end
  | None => Thrown TypeError
  end.

Definition deref (v : option loc) : CM ImageLayer :=
  st ← get_st; lift_out (deref_in (heap st) v).

(** Assignment to a property of the object at [l]. *)
Definition update_layer (l : loc) (f : ImageLayer -> ImageLayer) : CM unit :=
  o ← deref (Some l);
  modify_st (fun st => set_heap (<[l := f o]> (heap st)) st).

Definition ctx_do (f : Ctx2D -> Ctx2D) : CM unit :=
  modify_st (fun st => set_crc (f (crc st)) st).

Section Methods.
Context (canvasWidth canvasHeight : Z).

(** [setupCanvas()] (lines 37-41), called by [ngAfterViewInit]. *)
Definition setupCanvas : CM unit :=
  ctx_do (ctx_setFillStyle "white") ;;
  ctx_do (ctx_fillRect 0 0 canvasWidth canvasHeight).

(** The component after [ngAfterViewInit] (lines 31-35). *)
Definition canvas_init : CanvasComponent := exec setupCanvas canvas_fields.

(** [drawResizeHandles(layer)] (lines 83-87). *)
Definition drawResizeHandles (layer : ImageLayer) : CM unit :=
  let handleSize := resizeHandleSize layer in
  ctx_do (ctx_setFillStyle "blue") ;;
  ctx_do (ctx_fillRect (x layer + width layer - handleSize / 2)
                       (y layer + height layer - handleSize / 2) handleSize handleSize).

(** The [forEach] callback of [redrawCanvas] (lines 77-80). *)
Definition draw_layer (v : option loc) : CM unit :=
  layer ← deref v;
  ctx_do (ctx_drawImage (image layer) (x layer) (y layer) (width layer) (height layer)) ;;
  drawResizeHandles layer.

(** [redrawCanvas()] (lines 71-81). *)
Definition redrawCanvas : CM unit :=
  ctx_do (ctx_clearRect 0 0 canvasWidth canvasHeight) ;;
  ctx_do (ctx_setFillStyle "white") ;;
  ctx_do (ctx_fillRect 0 0 canvasWidth canvasHeight) ;;
  st ← get_st;
  js_forEach draw_layer (imageLayers st).

(** The [file] input setter (lines 43-69): a non-null file starts a
    [FileReader]; the rest runs later, in [file_loaded]. *)
Definition set_file (file : option File) : CM unit :=
  match file with
  | Some f => modify_st (fun st => set_pending (pending st ++ [f]) st)
  | None => mret tt
  end.

(** The image [onload] closure (lines 48-64). *)
Definition img_onload (img : Image) : CM unit :=
  let w := Z.min (img_width img) canvasWidth in
  let h := Z.min (img_height img) canvasHeight in
  st ← get_st;
  let l := nextId st in
  let layer := MkLayer l img 50 50 w h false false 10 in
  put_st (MkCanvas (js_push (imageLayers st) l) (selectedImageLayer st) (l + 1)
                   (startX st) (startY st) (<[l := layer]> (heap st)) (crc st) (pending st)) ;;
  redrawCanvas.

(** Completion of the [k]-th pending read (the reader's [onload], lines
    46-66): the image is decoded and [img_onload] runs; an undecodable file
    raises no [onload] and is dropped without a trace. *)
Definition file_loaded (k : nat) : CM unit :=
  st ← get_st;
  match pending st !! k with
  | None => mret tt
  | Some f =>
      put_st (set_pending (delete k (pending st)) st) ;;
      match file_dims f with
      | Some (w, h) => img_onload (MkImage f w h)
      | None => mret tt
      end
  end.

(** [onFileSelected(file)] (lines 89-91). *)
Definition onFileSelected (f : File) : CM unit := set_file (Some f).

(** The callback [layer => layer.id !== id] of [onDeleteSelected]. *)
Definition id_differs (h : gmap loc ImageLayer) (i : Z) (v : option loc) : outcome bool :=
  let! layer := deref_in h v in Normal (negb (id layer =? i)).

(** The callback [layer => layer.id === id] of the move handlers. *)
Definition id_matches (h : gmap loc ImageLayer) (i : Z) (v : option loc) : outcome bool :=
  let! layer := deref_in h v in Normal (id layer =? i).

(** [onDeleteSelected(id)] (lines 93-96). *)
Definition onDeleteSelected (i : Z) : CM unit :=
  st ← get_st;
  a ← lift_out (js_filter (id_differs (heap st) i) (imageLayers st));
  modify_st (set_imageLayers a) ;;
  redrawCanvas.

(** [onMoveUpSelected(id)] (lines 98-104). *)
Definition onMoveUpSelected (i : Z) : CM unit :=
  st ← get_st;
  index ← lift_out (js_findIndex (id_matches (heap st) i) (imageLayers st));
  if 0 <? index then
    modify_st (fun st => set_imageLayers (js_swap (imageLayers st) index (index - 1)) st) ;;
    redrawCanvas
  else mret tt.

(** [onMoveDownSelected(id)] (lines 106-112). *)
Definition onMoveDownSelected (i : Z) : CM unit :=
  st ← get_st;
  index ← lift_out (js_findIndex (id_matches (heap st) i) (imageLayers st));
  if index <? js_length (imageLayers st) - 1 then
    modify_st (fun st => set_imageLayers (js_swap (imageLayers st) index (index + 1)) st) ;;
    redrawCanvas
  else mret tt.

(** The callback of the hit test in [onMouseDown]. *)
Definition over_layer (h : gmap loc ImageLayer) (ox oy : Z) (v : option loc) : outcome bool :=
  let! layer := deref_in h v in Normal (isMouseOverLayer ox oy layer).

(** [onMouseDown(event)] (lines 114-132). *)
Definition onMouseDown (offsetX offsetY : Z) : CM unit :=
  modify_st (set_start offsetX offsetY) ;;
  st ← get_st;
  selectedLayer ← lift_out (js_find (over_layer (heap st) offsetX offsetY) (imageLayers st));
  match selectedLayer with
  | Some l =>
      layer ← deref (Some l);
      (if inResizeHandle offsetX offsetY layer
       then update_layer l (set_isResizing true)
       else update_layer l (set_isDragging true)) ;;
      modify_st (set_selected (Some l))
  | None => mret tt
  end.

(** [onMouseUp(event)] (lines 134-140). *)
Definition onMouseUp : CM unit :=
  st ← get_st;
  match selectedImageLayer st with
  | Some l =>
      update_layer l (set_isDragging false) ;;
      update_layer l (set_isResizing false) ;;
      modify_st (set_selected None)
  | None => mret tt
  end.

(** The drag branch of [onMouseMove] (lines 147-157). *)
Definition drag_step (l : loc) (offsetX offsetY : Z) : CM unit :=
  st ← get_st;
  let dx := offsetX - startX st in
  let dy := offsetY - startY st in
  modify_st (set_start offsetX offsetY) ;;
  update_layer l (fun o => set_x (x o + dx) o) ;;
  update_layer l (fun o => set_y (y o + dy) o) ;;
  redrawCanvas.

(** The guard of the resize branch (line 165). *)
Definition resize_ok (newWidth newHeight : Z) : bool :=
  (0 <? newWidth) && (0 <? newHeight) &&
  (newWidth <=? canvasWidth) && (newHeight <=? canvasHeight).

(** The resize branch of [onMouseMove] (lines 159-171). *)
Definition resize_step (l : loc) (offsetX offsetY : Z) : CM unit :=
  layer ← deref (Some l);
  let newWidth := offsetX - x layer in
  let newHeight := offsetY - y layer in
  (if resize_ok newWidth newHeight
   then update_layer l (set_width newWidth) ;; update_layer l (set_height newHeight)
   else mret tt) ;;
  redrawCanvas.

(** [onMouseMove(event)] (lines 142-172): the drag branch and then, on the
    object as it is after it, the resize branch. *)
Definition onMouseMove (offsetX offsetY : Z) : CM unit :=
  st ← get_st;
  match selectedImageLayer st with
  | None => mret tt
  | Some l =>
      layer ← deref (Some l);
      (if isDragging layer then drag_step l offsetX offsetY else mret tt) ;;
      layer' ← deref (Some l);
      if isResizing layer' then resize_step l offsetX offsetY else mret tt
  end.

End Methods.
