(* ===== verification/Demo.v ===== *)
(** * Concrete canvases used by the witnesses and counterexamples

    An 800 x 600 canvas after [ngAfterViewInit], with one and with two
    50 x 50 images loaded (ids 0 and 1, both at (50, 50)). *)
From S2P Require Import Prelude JsArray Layer Canvas.

Definition demo_file (n : string) : File := MkFile n (Some (50, 50)).

Definition demo_one : CanvasComponent :=
  exec (file_loaded 800 600 0) (exec (onFileSelected (demo_file "a.png")) (canvas_init 800 600)).

Definition demo_two : CanvasComponent :=
  exec (file_loaded 800 600 0) (exec (onFileSelected (demo_file "b.png")) demo_one).
