(* ===== verification/CanvasWf.v ===== *)
(** * Well-formed canvases, the layer view, and rendering

    A canvas is well formed when its layer array is clean (every slot holds
    a reference, no negative-key property), lists each object once, and
    points only to live layer objects whose id is their address, below
    [nextId], with handle size 10 and a size within the canvas. The layers
    as the user sees them are [view st], the array read through the heap.
    This file proves that [redrawCanvas] paints [view st] back to front and
    that the component's initial state is well formed. *)
From S2P Require Import Prelude JsArray Layer LayerStack Canvas.

Definition layer_locs (st : CanvasComponent) : list loc :=
  omap (fun v => v) (slots (imageLayers st)).

(** The layers of the component, in paint order (back to front). *)
Definition view (st : CanvasComponent) : list ImageLayer :=
  omap (fun l => heap st !! l) (layer_locs st).

(** What the browser decodes a file to is a size with no negative side. *)
Definition file_ok (f : File) : Prop :=
  match file_dims f with Some (w, h) => 0 <= w /\ 0 <= h | None => True end.

(** The commands [redrawCanvas] issues for one layer. *)
Definition layer_cmds (o : ImageLayer) : list DrawCmd :=
  [DrawImage (image o) (x o) (y o) (width o) (height o);
   FillRect "blue" (x o + width o - resizeHandleSize o / 2)
                   (y o + height o - resizeHandleSize o / 2)
                   (resizeHandleSize o) (resizeHandleSize o)].

Lemma arr_of_locs (l : list loc) : omap (fun v : option loc => v) (Some <$> l) = l.
Proof. induction l as [|a l IH]; [done|]. rewrite fmap_cons, omap_cons_eq. by f_equal. Qed.

Lemma set_crc_heap c st : heap (set_crc c st) = heap st.
Proof. reflexivity. Qed.
Lemma set_crc_set_crc c c' st : set_crc c (set_crc c' st) = set_crc c st.
Proof. reflexivity. Qed.
Lemma set_crc_crc st : set_crc (crc st) st = st.
Proof. by destruct st. Qed.

#[export] Hint Rewrite arr_of_locs set_crc_heap set_crc_set_crc set_crc_crc : canvas_rw.

(** The selected layer, if any, is a live object. *)
Definition sel_live (st : CanvasComponent) : Prop :=
  match selectedImageLayer st with Some l => is_Some (heap st !! l) | None => True end.

#[export] Instance file_ok_dec f : Decision (file_ok f).
Proof. unfold file_ok. destruct (file_dims f) as [[]|]; apply _. Defined.
#[export] Instance sel_live_dec st : Decision (sel_live st).
Proof. unfold sel_live. destruct (selectedImageLayer st); apply _. Defined.
#[export] Instance jsarray_eq_dec `{EqDecision A} : EqDecision (jsarray A).
Proof. solve_decision. Defined.

Section Wf.
Context (cw ch : Z).

Definition layer_ok (n : Z) (l : loc) (o : ImageLayer) : Prop :=
  id o = l /\ 0 <= l < n /\ resizeHandleSize o = 10 /\
  0 <= width o <= cw /\ 0 <= height o <= ch.

Record canvas_wf (st : CanvasComponent) : Prop := {
  wf_clean : imageLayers st = arr_of (layer_locs st);
  wf_nodup : NoDup (layer_locs st);
  wf_live : all_live (fun l => heap st !! l) (layer_locs st);
  wf_heap : map_Forall (layer_ok (nextId st)) (heap st);
  wf_next : 0 <= nextId st;
  wf_sel : sel_live st;
  wf_pending : Forall file_ok (pending st)
}.

#[export] Instance layer_ok_dec n l o : Decision (layer_ok n l o).
Proof. unfold layer_ok. apply _. Defined.

Lemma canvas_wf_iff st :
  canvas_wf st <->
  imageLayers st = arr_of (layer_locs st) /\ NoDup (layer_locs st) /\
  all_live (fun l => heap st !! l) (layer_locs st) /\
  map_Forall (layer_ok (nextId st)) (heap st) /\ 0 <= nextId st /\ sel_live st /\
  Forall file_ok (pending st).
Proof. split; [intros []; tauto|intros (? & ? & ? & ? & ? & ? & ?); by constructor]. Qed.

(** Well-formedness is decidable, so it can be checked on a concrete state. *)
#[export] Instance canvas_wf_dec st : Decision (canvas_wf st).
Proof.
  refine (cast_if (decide (imageLayers st = arr_of (layer_locs st) /\ NoDup (layer_locs st) /\
    all_live (fun l => heap st !! l) (layer_locs st) /\
    map_Forall (layer_ok (nextId st)) (heap st) /\ 0 <= nextId st /\ sel_live st /\
    Forall file_ok (pending st))));
    by rewrite canvas_wf_iff.
Defined.

(** The context after a complete redraw of the layers [ls]. *)
Definition redrawn (ls : list ImageLayer) (c : Ctx2D) : Ctx2D :=
  MkCtx (match ls with [] => "white" | _ => "blue" end)
        (drawn c ++ [ClearRect 0 0 cw ch; FillRect "white" 0 0 cw ch] ++
         concat (layer_cmds <$> ls)).

Lemma draw_layer_live st l o :
  heap st !! l = Some o ->
  draw_layer (Some l) st =
  (Normal tt, set_crc (MkCtx "blue" (drawn (crc st) ++ layer_cmds o)) st).
Proof.
  intros Ho. unfold draw_layer, deref, drawResizeHandles, ctx_do. js_unfold.
  simpl. rewrite Ho. ctx_unfold. autorewrite with canvas_rw. simpl. by rewrite <- !app_assoc.
Qed.

Lemma for_each_draw_live (L : list loc) st :
  all_live (fun l => heap st !! l) L ->
  for_each_in draw_layer (Some <$> L) st =
  (Normal tt, set_crc (MkCtx (match L with [] => fillStyle (crc st) | _ => "blue" end)
                             (drawn (crc st) ++ concat (layer_cmds <$> omap (fun l => heap st !! l) L)))
                      st).
Proof.
  revert st. induction L as [|l L IH]; intros st HL.
  - simpl. rewrite app_nil_r. by destruct st as [? ? ? ? ? ? [] ?].
  - inversion HL as [|? ? [o Ho] HL']; subst.
    rewrite fmap_cons. cbn [for_each_in]. rewrite js_bind_run, (draw_layer_live _ _ o Ho).
    rewrite IH by done. rewrite omap_cons_eq, Ho. autorewrite with canvas_rw.
    simpl. rewrite <- app_assoc. by destruct L.
Qed.

(** [redrawCanvas] on a canvas whose slots are all live: it returns, changes
    only the context, and appends the frame of [view st]. *)
Lemma redrawCanvas_live st :
  imageLayers st = arr_of (layer_locs st) ->
  all_live (fun l => heap st !! l) (layer_locs st) ->
  redrawCanvas cw ch st = (Normal tt, set_crc (redrawn (view st) (crc st)) st).
Proof.
  intros Hc Hl. unfold redrawCanvas, ctx_do. js_unfold. simpl. rewrite Hc.
  unfold js_forEach, arr_of. cbn [slots]. rewrite for_each_draw_live by done.
  unfold redrawn, view. f_equal. autorewrite with canvas_rw. cbn. f_equal.
  f_equal; [|by rewrite <- !app_assoc].
  destruct (layer_locs st) as [|l L] eqn:E; [done|].
  inversion Hl as [|? ? [o Ho] _]; subst. by rewrite omap_cons_eq, Ho.
Qed.

Lemma redrawCanvas_wf st :
  canvas_wf st ->
  redrawCanvas cw ch st = (Normal tt, set_crc (redrawn (view st) (crc st)) st).
Proof. intros []. by apply redrawCanvas_live. Qed.

(** ** Shared lemmas on the component's state *)

Lemma view_set_crc c st : view (set_crc c st) = view st.
Proof. reflexivity. Qed.

Lemma wf_set_crc c st : canvas_wf st -> canvas_wf (set_crc c st).
Proof. intros []; by constructor. Qed.

Lemma layer_locs_arr_of st L :
  layer_locs (set_imageLayers (arr_of L) st) = L.
Proof. unfold layer_locs. simpl. apply arr_of_locs. Qed.

Lemma layer_locs_clean st L : imageLayers st = arr_of L -> layer_locs st = L.
Proof. intros H. unfold layer_locs. rewrite H. apply arr_of_locs. Qed.

Lemma wf_ids st l o : canvas_wf st -> heap st !! l = Some o -> id o = l.
Proof. intros Hwf Ho. by destruct (wf_heap _ Hwf l o Ho). Qed.

(** Replacing the array by a clean array of distinct live references keeps
    the invariant. *)
Lemma wf_set_layers st L :
  canvas_wf st -> NoDup L -> all_live (fun l => heap st !! l) L ->
  canvas_wf (set_imageLayers (arr_of L) st).
Proof.
  intros [] Hnd Hl. constructor; simpl; rewrite ?layer_locs_arr_of; auto.
Qed.

Lemma all_live_perm st L L' :
  L' ≡ₚ L -> all_live (fun l => heap st !! l) L -> all_live (fun l => heap st !! l) L'.
Proof. intros Hp. unfold all_live. by rewrite Hp. Qed.

Lemma all_live_filter st (P : loc -> Prop) `{!forall l, Decision (P l)} L :
  all_live (fun l => heap st !! l) L -> all_live (fun l => heap st !! l) (filter P L).
Proof.
  unfold all_live. rewrite !Forall_forall. intros Hl a [_ Ha]%list_elem_of_filter. auto.
Qed.

(** A callback that reads a property of each element computes a function
    of the reference, on an array of live references. *)
Lemma deref_total (h : gmap loc ImageLayer) (g : ImageLayer -> bool) (f : loc -> bool) L :
  all_live (fun l => h !! l) L -> (forall l o, h !! l = Some o -> g o = f l) ->
  total_on (fun v => let! o := deref_in h v in Normal (g o)) f L.
Proof.
  intros Hl Hgf. unfold total_on. eapply Forall_impl; [exact Hl|].
  intros l [o Ho]. simpl. rewrite Ho. simpl. by rewrite (Hgf l o Ho).
Qed.

Lemma id_matches_total st i :
  canvas_wf st -> total_on (id_matches (heap st) i) (fun l => l =? i) (layer_locs st).
Proof.
  intros Hwf. apply deref_total; [apply Hwf|]. intros l o Ho. by rewrite (wf_ids st l o).
Qed.

Lemma id_differs_total st i :
  canvas_wf st -> total_on (id_differs (heap st) i) (fun l => negb (l =? i)) (layer_locs st).
Proof.
  intros Hwf. apply deref_total; [apply Hwf|]. intros l o Ho. by rewrite (wf_ids st l o).
Qed.

(** The position found by [findIndex] is the position of the layer in the view. *)
Lemma findIndex_view st i :
  canvas_wf st ->
  js_findIndex (id_matches (heap st) i) (imageLayers st) = Normal (LayerStack.index_of i (view st)).
Proof.
  intros Hwf. rewrite (wf_clean _ Hwf), (js_findIndex_clean _ (fun l => l =? i)) by (by apply id_matches_total).
  unfold LayerStack.index_of, view. f_equal. apply first_index_omap_live; [apply Hwf|].
  intros l o Ho. by rewrite (wf_ids st l o).
Qed.

Lemma length_view st : canvas_wf st -> length (view st) = length (layer_locs st).
Proof. intros Hwf. apply length_omap_live, Hwf. Qed.

(** Running a state change followed by [redrawCanvas]. *)
Lemma then_redraw (m : CM unit) st st' :
  m st = (Normal tt, st') -> canvas_wf st' ->
  (m ;; redrawCanvas cw ch) st = (Normal tt, set_crc (redrawn (view st') (crc st')) st').
Proof. intros Hm Hwf. rewrite js_bind_run, Hm. by apply redrawCanvas_wf. Qed.

End Wf.

(** ** The list handlers refine the layer-stack specification *)
Section ListOps.
Context (cw ch : Z).

Lemma view_filter st i :
  canvas_wf cw ch st ->
  view (set_imageLayers (arr_of (filter (fun l => negb (l =? i) = true) (layer_locs st))) st)
  = LayerStack.delete i (view st).
Proof.
  intros Hwf. unfold view. rewrite layer_locs_arr_of. apply omap_filter_live.
  intros l o Ho. simpl in Ho. rewrite (wf_ids cw ch st l o Hwf Ho), negb_true_iff, Z.eqb_neq. done.
Qed.

Lemma view_swap st a b :
  canvas_wf cw ch st ->
  view (set_imageLayers (arr_of (swap_at a b (layer_locs st))) st) = swap_at a b (view st).
Proof. intros Hwf. unfold view. rewrite layer_locs_arr_of. apply omap_swap_at_live, Hwf. Qed.

Lemma wf_filter st i :
  canvas_wf cw ch st ->
  canvas_wf cw ch (set_imageLayers (arr_of (filter (fun l => negb (l =? i) = true) (layer_locs st))) st).
Proof.
  intros Hwf. apply wf_set_layers; [done| |by apply all_live_filter, Hwf].
  apply NoDup_filter, Hwf.
Qed.

Lemma wf_swap st a b :
  canvas_wf cw ch st ->
  canvas_wf cw ch (set_imageLayers (arr_of (swap_at a b (layer_locs st))) st).
Proof.
  intros Hwf. apply wf_set_layers; [done| |].
  - rewrite swap_at_perm. apply Hwf.
  - eapply all_live_perm; [apply swap_at_perm|apply Hwf].
Qed.

Lemma onDeleteSelected_run st i :
  canvas_wf cw ch st ->
  onDeleteSelected cw ch i st =
  (Normal tt, set_crc (redrawn cw ch (LayerStack.delete i (view st)) (crc st))
     (set_imageLayers (arr_of (filter (fun l => negb (l =? i) = true) (layer_locs st))) st)).
Proof.
  intros Hwf. unfold onDeleteSelected. js_unfold. simpl.
  rewrite (wf_clean _ _ _ Hwf) at 1.
  rewrite (js_filter_clean _ (fun l => negb (l =? i))) by (by apply (id_differs_total cw ch)).
  simpl. rewrite (redrawCanvas_wf cw ch) by (by apply wf_filter). by rewrite view_filter.
Qed.

(** The swap of the move handlers on a well-formed canvas. *)
Lemma swap_run st (k j : Z) :
  canvas_wf cw ch st ->
  0 <= k < Z.of_nat (length (view st)) -> 0 <= j < Z.of_nat (length (view st)) ->
  (modify_st (fun s => set_imageLayers (js_swap (imageLayers s) k j) s) ;; redrawCanvas cw ch) st =
  (Normal tt, set_crc (redrawn cw ch (swap_at (Z.to_nat k) (Z.to_nat j) (view st)) (crc st))
     (set_imageLayers (arr_of (swap_at (Z.to_nat k) (Z.to_nat j) (layer_locs st))) st)).
Proof.
  intros Hwf Hk Hj. rewrite (length_view cw ch) in Hk, Hj by done.
  rewrite (then_redraw cw ch _ _ (set_imageLayers (arr_of (swap_at (Z.to_nat k) (Z.to_nat j) (layer_locs st))) st)).
  - by rewrite view_swap.
  - js_unfold. by rewrite (wf_clean _ _ _ Hwf) at 1; rewrite js_swap_clean_Z.
  - by apply wf_swap.
Qed.

Lemma onMoveUpSelected_run st i :
  canvas_wf cw ch st ->
  let k := LayerStack.index_of i (view st) in
  onMoveUpSelected cw ch i st =
  if 0 <? k then
    (Normal tt, set_crc (redrawn cw ch (LayerStack.move_up i (view st)) (crc st))
       (set_imageLayers (arr_of (swap_at (Z.to_nat k) (Z.to_nat (k - 1)) (layer_locs st))) st))
  else (Normal tt, st).
Proof.
  intros Hwf k. unfold onMoveUpSelected. rewrite js_bind_run. simpl.
  rewrite js_bind_run. cbv [lift_out]. rewrite (findIndex_view cw ch) by done. fold k.
  pose proof (first_index_bounds (fun o => id o =? i) (view st)).
  unfold LayerStack.move_up. fold k. destruct (Z.ltb_spec 0 k); [|done].
  apply swap_run; [done|unfold k, LayerStack.index_of in *; lia..].
Qed.

Lemma onMoveDownSelected_run st i :
  canvas_wf cw ch st ->
  let k := LayerStack.index_of i (view st) in
  0 <= k ->
  onMoveDownSelected cw ch i st =
  if k <? Z.of_nat (length (view st)) - 1 then
    (Normal tt, set_crc (redrawn cw ch (LayerStack.move_down i (view st)) (crc st))
       (set_imageLayers (arr_of (swap_at (Z.to_nat k) (Z.to_nat (k + 1)) (layer_locs st))) st))
  else (Normal tt, st).
Proof.
  intros Hwf k Hk. unfold onMoveDownSelected. rewrite js_bind_run. simpl.
  rewrite js_bind_run. cbv [lift_out]. rewrite (findIndex_view cw ch) by done. fold k.
  rewrite (wf_clean _ _ _ Hwf). unfold js_length at 1, arr_of at 1. cbn [slots].
  rewrite length_fmap, <- (length_view cw ch) by done.
  pose proof (first_index_bounds (fun o => id o =? i) (view st)).
  unfold LayerStack.move_down. fold k. destruct (Z.ltb_spec k (Z.of_nat (length (view st)) - 1)); [|done].
  replace (0 <=? k) with true by (symmetry; apply Z.leb_le; lia). simpl.
  apply swap_run; [done|unfold k, LayerStack.index_of in *; lia..].
Qed.

End ListOps.

(** ** A canvas whose first slot holds [undefined] *)
Section Corrupt.
Context (cw ch : Z).

(** [redrawCanvas] clears the canvas and throws on the first slot. *)
Lemma redrawCanvas_undefined_head st rest :
  slots (imageLayers st) = None :: rest ->
  redrawCanvas cw ch st =
  (Thrown TypeError,
   set_crc (MkCtx "white" (drawn (crc st) ++ [ClearRect 0 0 cw ch; FillRect "white" 0 0 cw ch])) st).
Proof.
  intros Hs. unfold redrawCanvas, ctx_do. js_unfold. simpl. unfold js_forEach. rewrite Hs.
  simpl. ctx_unfold. simpl. by rewrite <- app_assoc.
Qed.

Lemma view_undefined_head st L' props' :
  view (set_imageLayers (JsArr (None :: (Some <$> L')) props') st) = omap (fun l => heap st !! l) L'.
Proof. unfold view, layer_locs. simpl. by rewrite arr_of_locs. Qed.

End Corrupt.

Lemma index_of_found i ls :
  Exists (fun o => id o = i) ls -> 0 <= LayerStack.index_of i ls.
Proof.
  intros Hex. unfold LayerStack.index_of.
  pose proof (first_index_bounds (fun o => id o =? i) ls).
  destruct (Z.eq_dec (first_index (fun o => id o =? i) ls) (-1)) as [Hm|]; [|lia].
  apply first_index_none in Hm. exfalso. apply Exists_exists in Hex as (o & Ho & Hid).
  rewrite Forall_forall in Hm. specialize (Hm o Ho). simpl in Hm. rewrite Z.eqb_neq in Hm. done.
Qed.

Lemma onMoveDownSelected_empty cw ch st i :
  canvas_wf cw ch st -> view st = [] -> onMoveDownSelected cw ch i st = (Normal tt, st).
Proof.
  intros Hwf Hv. unfold onMoveDownSelected. rewrite js_bind_run. simpl.
  rewrite js_bind_run. cbv [lift_out]. rewrite (findIndex_view cw ch) by done. rewrite Hv.
  assert (layer_locs st = []) as HL by (apply nil_length_inv; rewrite <- (length_view cw ch), Hv; done).
  rewrite (wf_clean _ _ _ Hwf), HL. reflexivity.
Qed.

(** ** Updating a live layer object *)
Section Update.
Context (cw ch : Z).

Lemma deref_live st l o :
  heap st !! l = Some o -> deref (Some l) st = (Normal o, st).
Proof. intros Ho. unfold deref. js_unfold. simpl. by rewrite Ho. Qed.

Lemma update_layer_live st l o f :
  heap st !! l = Some o ->
  update_layer l f st = (Normal tt, set_heap (<[l := f o]> (heap st)) st).
Proof. intros Ho. unfold update_layer. rewrite js_bind_run, (deref_live _ _ o) by done. reflexivity. Qed.

Lemma layer_locs_set_heap h st : layer_locs (set_heap h st) = layer_locs st.
Proof. reflexivity. Qed.

(** Replacing a live object by one that satisfies the object invariant. *)
Lemma wf_update st l o o' :
  canvas_wf cw ch st -> heap st !! l = Some o -> layer_ok cw ch (nextId st) l o' ->
  canvas_wf cw ch (set_heap (<[l := o']> (heap st)) st).
Proof.
  intros [Hc Hnd Hlive Hheap Hnext Hsel Hp] Ho Hok. constructor; simpl; auto.
  - unfold all_live in *. eapply Forall_impl; [exact Hlive|]. simpl.
    intros l' Hl'. destruct (decide (l = l')) as [->|Hne]; [by rewrite lookup_insert_eq|].
    by rewrite lookup_insert_ne.
  - by apply map_Forall_insert_2.
  - unfold sel_live in *. simpl. destruct (selectedImageLayer st) as [l'|]; [|done].
    destruct (decide (l = l')) as [->|Hne]; [by rewrite lookup_insert_eq|by rewrite lookup_insert_ne].
Qed.

Lemma layer_ok_flags n l o b b' :
  layer_ok cw ch n l o -> layer_ok cw ch n l (set_isDragging b (set_isResizing b' o)) /\
  layer_ok cw ch n l (set_isDragging b o) /\ layer_ok cw ch n l (set_isResizing b o).
Proof. unfold layer_ok. simpl. tauto. Qed.

Lemma layer_ok_move n l o dx dy :
  layer_ok cw ch n l o -> layer_ok cw ch n l (set_y (y o + dy) (set_x (x o + dx) o)).
Proof. unfold layer_ok. simpl. tauto. Qed.

Lemma layer_ok_resize n l o w h :
  layer_ok cw ch n l o -> 0 < w <= cw -> 0 < h <= ch ->
  layer_ok cw ch n l (set_height h (set_width w o)).
Proof. unfold layer_ok. simpl. lia. Qed.

Lemma wf_layer_ok st l o :
  canvas_wf cw ch st -> heap st !! l = Some o -> layer_ok cw ch (nextId st) l o.
Proof. intros Hwf Ho. exact (wf_heap _ _ _ Hwf l o Ho). Qed.

End Update.

#[export] Hint Resolve wf_set_crc wf_filter wf_swap wf_update wf_layer_ok : canvas.
