(* ===== verification/LayerList.v ===== *)
(** * The layer-list handlers: refinement, and the move-down defect

    [onDeleteSelected], [onMoveUpSelected] and [onMoveDownSelected] on a
    well-formed canvas implement [LayerStack.delete], [move_up] and
    [move_down] on the layers shown, redraw when they change something, and
    keep the invariant; [onMoveDownSelected] does so only for an id that is
    present (or an empty canvas): for an unknown id it swaps slot 0 with the
    property [-1], leaves [undefined] in slot 0 and throws, after which every
    handler that scans the array throws too. *)
From S2P Require Import Prelude JsArray Layer LayerStack Canvas CanvasWf Demo.

(** C2: Deleting by id: on a well-formed canvas [onDeleteSelected] returns, the
    layers shown become [LayerStack.delete i] of the previous ones (exactly
    the layers with id [i] removed, the others in their order), the canvas
    is redrawn with them, and the invariant holds after. *)
Theorem onDeleteSelected_refines cw ch st i :
  canvas_wf cw ch st ->
  let st' := exec (onDeleteSelected cw ch i) st in
  onDeleteSelected cw ch i ⇓ st = Normal tt /\
  view st' = LayerStack.delete i (view st) /\
  crc st' = redrawn cw ch (view st') (crc st) /\
  canvas_wf cw ch st'.
Proof.
  intros Hwf. unfold exec. rewrite (onDeleteSelected_run cw ch) by done. simpl.
  rewrite view_set_crc, (view_filter cw ch) by done.
  split_and!; auto. by apply wf_set_crc, wf_filter.
Qed.

Lemma onDeleteSelected_refines_witness :
  canvas_wf 800 600 demo_two /\
  view (exec (onDeleteSelected 800 600 0) demo_two) = LayerStack.delete 0 (view demo_two).
Proof.
  assert (H : canvas_wf 800 600 demo_two) by (apply (bool_decide_unpack _); vm_compute; reflexivity).
  split; [exact H|]. exact (proj1 (proj2 (onDeleteSelected_refines 800 600 demo_two 0 H))).
Defined.

(** C3: Moving up: on a well-formed canvas [onMoveUpSelected] returns, the
    layers become [LayerStack.move_up i] of the previous ones (the layer with
    id [i] swapped with its predecessor; nothing for the first layer or an
    unknown id), the canvas is either untouched or redrawn, and the invariant
    holds after. *)
Theorem onMoveUpSelected_refines cw ch st i :
  canvas_wf cw ch st ->
  let st' := exec (onMoveUpSelected cw ch i) st in
  onMoveUpSelected cw ch i ⇓ st = Normal tt /\
  view st' = LayerStack.move_up i (view st) /\
  (st' = st \/ crc st' = redrawn cw ch (view st') (crc st)) /\
  canvas_wf cw ch st'.
Proof.
  intros Hwf. pose proof (onMoveUpSelected_run cw ch st i Hwf) as Hrun. simpl in Hrun.
  unfold exec. rewrite Hrun. unfold LayerStack.move_up.
  destruct (0 <? LayerStack.index_of i (view st)); simpl.
  - rewrite view_set_crc, (view_swap cw ch) by done. split_and!; auto.
    by apply wf_set_crc, wf_swap.
  - split_and!; auto.
Qed.

Lemma onMoveUpSelected_refines_witness :
  canvas_wf 800 600 demo_two /\
  view (exec (onMoveUpSelected 800 600 1) demo_two) = LayerStack.move_up 1 (view demo_two).
Proof.
  assert (H : canvas_wf 800 600 demo_two) by (apply (bool_decide_unpack _); vm_compute; reflexivity).
  split; [exact H|]. exact (proj1 (proj2 (onMoveUpSelected_refines 800 600 demo_two 1 H))).
Defined.

(** C4: Moving down a layer that is shown (or on an empty canvas): on a
    well-formed canvas [onMoveDownSelected] returns, the layers become
    [LayerStack.move_down i] of the previous ones (swapped with the successor;
    nothing for the last layer), the canvas is untouched or redrawn, and the
    invariant holds after. *)
Theorem onMoveDownSelected_refines cw ch st i :
  canvas_wf cw ch st ->
  Exists (fun o => id o = i) (view st) \/ view st = [] ->
  let st' := exec (onMoveDownSelected cw ch i) st in
  onMoveDownSelected cw ch i ⇓ st = Normal tt /\
  view st' = LayerStack.move_down i (view st) /\
  (st' = st \/ crc st' = redrawn cw ch (view st') (crc st)) /\
  canvas_wf cw ch st'.
Proof.
  intros Hwf [Hex|Hnil].
  - pose proof (onMoveDownSelected_run cw ch st i Hwf (index_of_found i _ Hex)) as Hrun.
    simpl in Hrun. unfold exec. rewrite Hrun. unfold LayerStack.move_down.
    pose proof (index_of_found i _ Hex) as Hk.
    replace (0 <=? LayerStack.index_of i (view st)) with true by (symmetry; by apply Z.leb_le).
    simpl. destruct (_ <? _); simpl.
    + rewrite view_set_crc, (view_swap cw ch) by done. split_and!; auto.
      by apply wf_set_crc, wf_swap.
    + split_and!; auto.
  - unfold exec. rewrite onMoveDownSelected_empty by done. simpl. rewrite Hnil. split_and!; auto.
Qed.

Lemma onMoveDownSelected_refines_witness :
  canvas_wf 800 600 demo_two /\ Exists (fun o => id o = 0) (view demo_two) /\
  view (exec (onMoveDownSelected 800 600 0) demo_two) = LayerStack.move_down 0 (view demo_two).
Proof.
  assert (H : canvas_wf 800 600 demo_two) by (apply (bool_decide_unpack _); vm_compute; reflexivity).
  assert (He : Exists (fun o => id o = 0) (view demo_two)) by (vm_compute; left; reflexivity).
  split_and!; [exact H|exact He|].
  exact (proj1 (proj2 (onMoveDownSelected_refines 800 600 demo_two 0 H (or_introl He)))).
Defined.

Lemma onMoveDownSelected_unknown_run cw ch st i l0 L' :
  canvas_wf cw ch st -> layer_locs st = l0 :: L' ->
  LayerStack.index_of i (view st) = -1 ->
  onMoveDownSelected cw ch i st =
  (Thrown TypeError,
   set_crc (MkCtx "white" (drawn (crc st) ++ [ClearRect 0 0 cw ch; FillRect "white" 0 0 cw ch]))
     (set_imageLayers (JsArr (None :: (Some <$> L')) {[-1 := Some l0]}) st)).
Proof.
  intros Hwf HL Hk. pose proof (wf_clean _ _ _ Hwf) as Hc. rewrite HL in Hc.
  unfold onMoveDownSelected. rewrite js_bind_run. simpl.
  rewrite js_bind_run. cbv [lift_out]. rewrite (findIndex_view cw ch), Hk by done.
  rewrite Hc. unfold js_length at 1, arr_of at 1. cbn [slots]. rewrite length_fmap.
  destruct (Z.ltb_spec (-1) (Z.of_nat (length (l0 :: L')) - 1)) as [_|Hlen]; [|simpl in Hlen; lia].
  rewrite js_bind_run. cbv [modify_st]. cbn beta iota. rewrite Hc.
  replace (-1 + 1) with 0 by reflexivity. rewrite js_swap_minus_one.
  by rewrite (redrawCanvas_undefined_head cw ch _ (Some <$> L')).
Qed.

(** C1: Moving down an id that no layer has, on a nonempty well-formed canvas:
    [findIndex] returns -1, the guard [-1 < length - 1] holds, and the swap
    [[a[-1], a[0]] = [a[0], a[-1]]] stores [undefined] in slot 0 (the first
    layer moves to the property [-1]); the redraw then throws a [TypeError].
    The first layer disappears from the layers shown and the invariant is
    broken. The spec (sections 4.4 and 7) says a move on an unknown id is a
    no-op. *)
Theorem onMoveDownSelected_unknown_id cw ch st i :
  canvas_wf cw ch st -> view st <> [] -> Forall (fun o => id o <> i) (view st) ->
  let st' := exec (onMoveDownSelected cw ch i) st in
  onMoveDownSelected cw ch i ⇓ st = Thrown TypeError /\
  slots (imageLayers st') = None :: tail (slots (imageLayers st)) /\
  view st' = tail (view st) /\
  ~ canvas_wf cw ch st'.
Proof.
  intros Hwf Hne Hunk.
  destruct (layer_locs st) as [|l0 L'] eqn:HL; [by unfold view in Hne; rewrite HL in Hne|].
  pose proof (wf_clean _ _ _ Hwf) as Hc. rewrite HL in Hc.
  unfold exec. rewrite (onMoveDownSelected_unknown_run cw ch st i l0 L') by (done || by apply LayerStack.index_of_unknown).
  simpl. rewrite Hc. simpl. split_and!; [done|done| |].
  - rewrite view_set_crc, view_undefined_head. unfold view. rewrite HL, omap_cons_eq.
    pose proof (wf_live _ _ _ Hwf) as Hl. rewrite HL in Hl.
    destruct (Forall_inv Hl) as [o Ho]. by rewrite Ho.
  - intros Hwf'. pose proof (wf_clean _ _ _ Hwf') as Hc'. revert Hc'.
    unfold layer_locs. simpl. rewrite arr_of_locs. unfold arr_of. intros [= Hs _].
Qed.

Lemma onMoveDownSelected_unknown_id_witness :
  canvas_wf 800 600 demo_one /\ view demo_one <> [] /\ Forall (fun o => id o <> 7) (view demo_one) /\
  onMoveDownSelected 800 600 7 ⇓ demo_one = Thrown TypeError.
Proof.
  assert (H : canvas_wf 800 600 demo_one) by (apply (bool_decide_unpack _); vm_compute; reflexivity).
  assert (Hne : view demo_one <> []) by (vm_compute; discriminate).
  assert (Hu : Forall (fun o => id o <> 7) (view demo_one)) by (vm_compute; repeat constructor; lia).
  split_and!; [exact H|exact Hne|exact Hu|].
  exact (proj1 (onMoveDownSelected_unknown_id 800 600 demo_one 7 H Hne Hu)).
Defined.

(** C12: Once slot 0 of the array holds [undefined], every handler that scans
    the array throws a [TypeError] before changing the layers: deleting,
    moving up, moving down, pressing the pointer, and redrawing (so also
    loading a new image). The canvas is unusable until the component is
    recreated. *)
Theorem corrupted_canvas_throws cw ch st rest :
  slots (imageLayers st) = None :: rest ->
  (forall i, onDeleteSelected cw ch i ⇓ st = Thrown TypeError) /\
  (forall i, onMoveUpSelected cw ch i ⇓ st = Thrown TypeError) /\
  (forall i, onMoveDownSelected cw ch i ⇓ st = Thrown TypeError) /\
  (forall ox oy, onMouseDown ox oy ⇓ st = Thrown TypeError) /\
  redrawCanvas cw ch ⇓ st = Thrown TypeError.
Proof.
  intros Hs.
  split_and!; intros **; unfold onDeleteSelected, onMoveUpSelected, onMoveDownSelected,
    onMouseDown, js_filter, js_findIndex, js_find; js_unfold; simpl; rewrite ?Hs; try done.
  by rewrite (redrawCanvas_undefined_head cw ch st rest).
Qed.

Lemma corrupted_canvas_throws_witness :
  let st := exec (onMoveDownSelected 800 600 7) demo_one in
  slots (imageLayers st) = None :: [] /\
  onDeleteSelected 800 600 0 ⇓ st = Thrown TypeError.
Proof.
  assert (Hs : slots (imageLayers (exec (onMoveDownSelected 800 600 7) demo_one)) = None :: [])
    by (vm_compute; reflexivity).
  split; [exact Hs|]. exact (proj1 (corrupted_canvas_throws 800 600 _ [] Hs) 0).
Defined.
