(* ===== verification/Gesture.v ===== *)
(** * The pointer gesture state machine (onMouseDown, onMouseMove, onMouseUp)

    The spec's machine (section 4.3) is [idle -> dragging | resizing -> idle].
    In the code the state is spread over [selectedImageLayer] and the two
    flags of the selected layer object. [gesture_of] reads the machine state
    off a canvas and [flags_ok] says the flags agree with the selection (only
    the selected object has a flag, and exactly one). For pointer events in
    which every press starts from [Idle], the handlers implement
    [gesture_step] and keep [flags_ok]; a press while a gesture is active
    (its release was lost, e.g. outside the canvas) sets the second flag on
    an object that already has one, and the next move then both drags and
    resizes the layer. The drag and resize branches are proved
    against their arithmetic: incremental deltas and a rejected (not
    clamped) out-of-range size. *)
From S2P Require Import Prelude JsArray Layer LayerStack Canvas CanvasWf Demo.

Inductive Gesture := Idle | Dragging (l : loc) | Resizing (l : loc).

#[export] Instance Gesture_eq_dec : EqDecision Gesture.
Proof. solve_decision. Defined.

(** The machine state of a canvas. *)
Definition gesture_of (st : CanvasComponent) : Gesture :=
  match selectedImageLayer st with
  | None => Idle
  | Some l =>
      match heap st !! l with
      | Some o => if isResizing o then Resizing l else Dragging l
      | None => Idle
      end
  end.

(** Only the selected object carries a flag, and it carries exactly one. *)
Definition flags_ok (st : CanvasComponent) : Prop :=
  map_Forall (fun l o =>
    if decide (selectedImageLayer st = Some l)
    then xorb (isDragging o) (isResizing o) = true
    else isDragging o = false /\ isResizing o = false) (heap st).

#[export] Instance flags_ok_dec st : Decision (flags_ok st).
Proof. unfold flags_ok. apply map_Forall_dec. intros l o. case_decide; apply _. Defined.

(** The spec's pointer-down: the first layer, in list order, whose rectangle
    holds the point; resizing when the point is also on its handle. *)
Definition hit (ox oy : Z) (ls : list ImageLayer) : Gesture :=
  match first_match (isMouseOverLayer ox oy) ls with
  | Some o => if inResizeHandle ox oy o then Resizing (id o) else Dragging (id o)
  | None => Idle
  end.

Inductive PointerEvent := Down (ox oy : Z) | Move (ox oy : Z) | Up.

(** The spec's transitions. A press while a gesture is active is not a
    transition of the spec's machine; it is left unchanged here. *)
Definition gesture_step (ls : list ImageLayer) (g : Gesture) (e : PointerEvent) : Gesture :=
  match e, g with
  | Down ox oy, Idle => hit ox oy ls
  | Down _ _, _ => g
  | Move _ _, _ => g
  | Up, _ => Idle
  end.

(** The canvas element's bindings of the three pointer events. *)
Definition on_pointer (cw ch : Z) (e : PointerEvent) : CM unit :=
  match e with
  | Down ox oy => onMouseDown ox oy
  | Move ox oy => onMouseMove cw ch ox oy
  | Up => onMouseUp
  end.

(** A press is well bracketed when it starts from [Idle]. *)
Definition bracketed (st : CanvasComponent) (e : PointerEvent) : Prop :=
  match e with Down _ _ => gesture_of st = Idle | _ => True end.

(** A sequence of pointer events delivered to the canvas. *)
Fixpoint run_pointer (cw ch : Z) (es : list PointerEvent) : CM unit :=
  match es with
  | [] => mret tt
  | e :: es' => on_pointer cw ch e ;; run_pointer cw ch es'
  end.

(** Presses and releases alternate: no second press before a release. *)
Fixpoint alternating (pressed : bool) (es : list PointerEvent) : bool :=
  match es with
  | [] => true
  | Down _ _ :: es' => negb pressed && alternating true es'
  | Move _ _ :: es' => alternating pressed es'
  | Up :: es' => alternating false es'
  end.

(** What a pointer gesture must not change: which layers there are, in
    which order, with which ids and images, and the id counter and reads. *)
Definition layer_key (o : ImageLayer) : Z * Image := (id o, image o).

Definition same_layers (st st' : CanvasComponent) : Prop :=
  layer_key <$> view st' = layer_key <$> view st /\ nextId st' = nextId st /\ pending st' = pending st.

(** [flags_ok] reads only the heap and the selection: close a goal by a
    hypothesis about a state that differs elsewhere. *)
Ltac flags_conv := match goal with H : flags_ok _ |- flags_ok _ => exact H end.

(** The pointer deltas of a sequence of positions, from an anchor. *)
Fixpoint deltas (s : Z) (ps : list Z) : list Z :=
  match ps with
  | [] => []
  | p :: ps' => (p - s) :: deltas p ps'
  end.

Definition sumZ (l : list Z) : Z := foldr Z.add 0 l.

Definition moves (pts : list (Z * Z)) : list PointerEvent := (fun p => Move p.1 p.2) <$> pts.

(** ** Run lemmas *)

Lemma onMouseUp_idle st :
  selectedImageLayer st = None -> onMouseUp st = (Normal tt, st).
Proof. intros Hs. unfold onMouseUp. js_unfold. simpl. by rewrite Hs. Qed.

Lemma onMouseUp_run st l o :
  selectedImageLayer st = Some l -> heap st !! l = Some o ->
  onMouseUp st =
  (Normal tt, set_selected None
     (set_heap (<[l := set_isResizing false (set_isDragging false o)]> (heap st)) st)).
Proof.
  intros Hs Ho. unfold onMouseUp. rewrite js_bind_run. simpl. rewrite Hs.
  rewrite js_bind_run, (update_layer_live _ _ o) by done.
  rewrite js_bind_run, (update_layer_live _ _ (set_isDragging false o)) by (simpl; apply lookup_insert_eq).
  simpl. by rewrite insert_insert_eq.
Qed.

(** The reference [find] returns, on a clean array of live references. *)
Lemma first_match_omap_live (h : gmap loc ImageLayer) (g : ImageLayer -> bool) (L : list loc) :
  all_live (fun l => h !! l) L ->
  first_match (fun l => from_option g false (h !! l)) L ≫= (fun l => h !! l) =
  first_match g (omap (fun l => h !! l) L).
Proof.
  induction 1 as [|l L [o Ho] _ IH]; [done|]. rewrite omap_cons_eq, Ho. simpl.
  rewrite Ho. simpl. destruct (g o); [done|]. exact IH.
Qed.

Lemma find_over_layer st ox oy :
  imageLayers st = arr_of (layer_locs st) ->
  all_live (fun l => heap st !! l) (layer_locs st) ->
  js_find (over_layer (heap st) ox oy) (imageLayers st) =
  Normal (first_match (fun l => from_option (isMouseOverLayer ox oy) false (heap st !! l)) (layer_locs st)).
Proof.
  intros Hc Hl. rewrite Hc. apply js_find_clean. unfold over_layer.
  apply deref_total; [done|]. intros l o Ho. by rewrite Ho.
Qed.

Section Runs.
Context (cw ch : Z).

(** The press: [startX]/[startY] are always set; the first layer whose
    rectangle holds the point gets one flag and becomes the selection. *)
Lemma onMouseDown_run st ox oy :
  canvas_wf cw ch st ->
  onMouseDown ox oy st =
  match first_match (fun l => from_option (isMouseOverLayer ox oy) false (heap st !! l)) (layer_locs st) with
  | Some l =>
      match heap st !! l with
      | Some o =>
          (Normal tt, set_selected (Some l)
             (set_heap (<[l := if inResizeHandle ox oy o then set_isResizing true o
                              else set_isDragging true o]> (heap st)) (set_start ox oy st)))
      | None => (Thrown TypeError, set_start ox oy st)
      end
  | None => (Normal tt, set_start ox oy st)
  end.
Proof.
  intros Hwf. unfold onMouseDown. do 3 js_step.
  rewrite (find_over_layer (set_start ox oy st)) by apply Hwf.
  change (heap (set_start ox oy st)) with (heap st).
  change (layer_locs (set_start ox oy st)) with (layer_locs st).
  destruct (first_match _ (layer_locs st)) as [l|] eqn:Hf; [|done].
  destruct (heap st !! l) as [o|] eqn:Ho.
  - js_step. rewrite (deref_live _ _ o) by done.
    destruct (inResizeHandle ox oy o); js_step; rewrite (update_layer_live _ _ o) by done; reflexivity.
  - unfold deref. js_unfold. simpl. by rewrite Ho.
Qed.

(** A move while dragging: the object is translated by the pointer delta
    since the last event, the anchor becomes the pointer, and the canvas is
    redrawn. *)
(** The drag branch on a live object: the anchor moves to the pointer, the
    object moves by the delta, and the canvas is redrawn. *)
Lemma drag_step_run st l o ox oy :
  canvas_wf cw ch st -> heap st !! l = Some o ->
  let o' := set_y (y o + (oy - startY st)) (set_x (x o + (ox - startX st)) o) in
  let st1 := set_heap (<[l := o']> (heap st)) (set_start ox oy st) in
  drag_step cw ch l ox oy st = (Normal tt, set_crc (redrawn cw ch (view st1) (crc st1)) st1).
Proof.
  intros Hwf Ho o' st1. unfold drag_step. do 3 js_step.
  rewrite (update_layer_live _ _ o) by apply Ho. js_step.
  rewrite (update_layer_live _ _ (set_x (x o + (ox - startX st)) o)) by apply lookup_insert_eq.
  cbn beta iota. change (heap (set_heap ?h ?s)) with h. rewrite insert_insert_eq.
  apply redrawCanvas_wf.
  apply (wf_update cw ch (set_start ox oy st) l o); [by destruct Hwf|done|].
  by apply layer_ok_move, (wf_layer_ok cw ch st).
Qed.

(** The resize branch on a live object: the size is set to pointer minus
    origin when the guard holds, and the canvas is redrawn either way. *)
Lemma resize_step_run st l o ox oy :
  canvas_wf cw ch st -> heap st !! l = Some o ->
  let nw := ox - x o in let nh := oy - y o in
  let st1 := if resize_ok cw ch nw nh
             then set_heap (<[l := set_height nh (set_width nw o)]> (heap st)) st else st in
  resize_step cw ch l ox oy st = (Normal tt, set_crc (redrawn cw ch (view st1) (crc st1)) st1).
Proof.
  intros Hwf Ho nw nh st1. unfold resize_step. js_step. rewrite (deref_live _ _ o) by done. fold nw nh.
  subst st1. destruct (resize_ok cw ch nw nh) eqn:Hok.
  - js_step. js_step. rewrite (update_layer_live _ _ o) by done.
    rewrite (update_layer_live _ _ (set_width nw o)) by apply lookup_insert_eq.
    cbn beta iota. change (heap (set_heap ?h ?s)) with h. rewrite insert_insert_eq.
    apply redrawCanvas_wf. apply (wf_update cw ch st l o); [done|done|].
    unfold resize_ok in Hok. rewrite !andb_true_iff, !Z.ltb_lt, !Z.leb_le in Hok.
    apply layer_ok_resize; [by apply (wf_layer_ok cw ch st)|lia|lia].
  - js_step. by apply redrawCanvas_wf.
Qed.

(** A move on a selected object that carries the drag flag: the drag branch
    runs, and the resize branch then runs on the object as moved when it
    also carries the resize flag. *)
Lemma onMouseMove_dragging st l o ox oy :
  canvas_wf cw ch st -> selectedImageLayer st = Some l -> heap st !! l = Some o -> isDragging o = true ->
  let o' := set_y (y o + (oy - startY st)) (set_x (x o + (ox - startX st)) o) in
  let st1 := set_heap (<[l := o']> (heap st)) (set_start ox oy st) in
  let st2 := set_crc (redrawn cw ch (view st1) (crc st1)) st1 in
  onMouseMove cw ch ox oy st = if isResizing o then resize_step cw ch l ox oy st2 else (Normal tt, st2).
Proof.
  intros Hwf Hs Ho Hd o' st1 st2. unfold onMouseMove. js_step. rewrite Hs.
  js_step. rewrite (deref_live _ _ o) by done. rewrite Hd.
  js_step. rewrite (drag_step_run st l o) by done. js_step.
  rewrite (deref_live _ _ o') by apply lookup_insert_eq. subst o'. cbn [isResizing set_y set_x]. by destruct (isResizing o).
Qed.

Lemma onMouseMove_drag st l o ox oy :
  canvas_wf cw ch st -> selectedImageLayer st = Some l -> heap st !! l = Some o ->
  isDragging o = true -> isResizing o = false ->
  let o' := set_y (y o + (oy - startY st)) (set_x (x o + (ox - startX st)) o) in
  let st1 := set_heap (<[l := o']> (heap st)) (set_start ox oy st) in
  onMouseMove cw ch ox oy st = (Normal tt, set_crc (redrawn cw ch (view st1) (crc st1)) st1).
Proof. intros Hwf Hs Ho Hd Hr. by rewrite (onMouseMove_dragging st l o), Hr. Qed.

Lemma onMouseMove_resize st l o ox oy :
  canvas_wf cw ch st -> selectedImageLayer st = Some l -> heap st !! l = Some o ->
  isDragging o = false -> isResizing o = true ->
  let nw := ox - x o in let nh := oy - y o in
  let st1 := if resize_ok cw ch nw nh
             then set_heap (<[l := set_height nh (set_width nw o)]> (heap st)) st else st in
  onMouseMove cw ch ox oy st = (Normal tt, set_crc (redrawn cw ch (view st1) (crc st1)) st1).
Proof.
  intros Hwf Hs Ho Hd Hr. unfold onMouseMove. js_step. rewrite Hs.
  js_step. rewrite (deref_live _ _ o) by done. rewrite Hd.
  js_step. js_step. rewrite (deref_live _ _ o) by done. rewrite Hr.
  by apply resize_step_run.
Qed.
End Runs.

(** ** Shared lemmas on the gesture state *)

Lemma flags_ok_irrel st st' :
  heap st' = heap st -> selectedImageLayer st' = selectedImageLayer st ->
  flags_ok st' <-> flags_ok st.
Proof. intros Hh Hs. unfold flags_ok. by rewrite Hh, Hs. Qed.

Lemma gesture_of_irrel st st' :
  heap st' = heap st -> selectedImageLayer st' = selectedImageLayer st ->
  gesture_of st' = gesture_of st.
Proof. intros Hh Hs. unfold gesture_of. by rewrite Hh, Hs. Qed.

(** Writing an object with the same flags keeps [flags_ok]. *)
Lemma flags_ok_same_flags st l o o' :
  flags_ok st -> heap st !! l = Some o ->
  isDragging o' = isDragging o -> isResizing o' = isResizing o ->
  flags_ok (set_heap (<[l := o']> (heap st)) st).
Proof.
  intros Hf Ho Hd Hr. unfold flags_ok. simpl. apply map_Forall_insert_2; [|done].
  rewrite Hd, Hr. exact (Hf l o Ho).
Qed.

Lemma gesture_idle_unselected cw ch st :
  canvas_wf cw ch st -> gesture_of st = Idle -> selectedImageLayer st = None.
Proof.
  intros Hwf Hg. pose proof (wf_sel _ _ _ Hwf) as Hs. unfold gesture_of, sel_live in *.
  destruct (selectedImageLayer st) as [l|]; [|done].
  destruct Hs as [o Ho]. rewrite Ho in Hg. by destruct (isResizing o).
Qed.

Lemma wf_set_selected cw ch st s :
  canvas_wf cw ch st -> (forall l, s = Some l -> is_Some (heap st !! l)) ->
  canvas_wf cw ch (set_selected s st).
Proof.
  intros [] Hs. constructor; auto. unfold sel_live. simpl. destruct s; [by apply Hs|done].
Qed.

Lemma wf_set_start cw ch st ox oy : canvas_wf cw ch st -> canvas_wf cw ch (set_start ox oy st).
Proof. intros []; by constructor. Qed.

(** The reference the press selects is the first layer of the view under
    the pointer. *)
Lemma press_hit cw ch st ox oy :
  canvas_wf cw ch st ->
  first_match (fun l => from_option (isMouseOverLayer ox oy) false (heap st !! l)) (layer_locs st)
    ≫= (fun l => heap st !! l) = first_match (isMouseOverLayer ox oy) (view st).
Proof. intros Hwf. apply first_match_omap_live, Hwf. Qed.

Lemma press_hit_live cw ch st ox oy l :
  canvas_wf cw ch st ->
  first_match (fun l => from_option (isMouseOverLayer ox oy) false (heap st !! l)) (layer_locs st) = Some l ->
  exists o, heap st !! l = Some o /\ id o = l /\ first_match (isMouseOverLayer ox oy) (view st) = Some o.
Proof.
  intros Hwf Hf. pose proof (press_hit cw ch st ox oy Hwf) as Hh. rewrite Hf in Hh. simpl in Hh.
  destruct (heap st !! l) as [o|] eqn:Ho.
  - exists o. split_and!; [done|by apply (wf_ids cw ch st)|done].
  - apply first_match_spec in Hf as (i & Hi & _). exfalso.
    pose proof (Forall_lookup_1 _ _ _ _ (wf_live _ _ _ Hwf) Hi) as [o' Ho']. congruence.
Qed.

Lemma omap_update_key (h : gmap loc ImageLayer) (L : list loc) l o o' :
  h !! l = Some o -> layer_key o' = layer_key o ->
  layer_key <$> omap (fun k => <[l := o']> h !! k) L = layer_key <$> omap (fun k => h !! k) L.
Proof.
  intros Ho Hk. induction L as [|k L IH]; [done|]. rewrite !omap_cons_eq.
  destruct (decide (l = k)) as [<-|Hne].
  - rewrite lookup_insert_eq, Ho, !fmap_cons, IH, Hk. done.
  - rewrite lookup_insert_ne by done. destruct (h !! k); [rewrite !fmap_cons, IH|]; done.
Qed.

Lemma same_layers_update st l o o' :
  heap st !! l = Some o -> layer_key o' = layer_key o ->
  same_layers st (set_heap (<[l := o']> (heap st)) st).
Proof. intros Ho Hk. split_and!; [by apply (omap_update_key _ _ l o o')|done|done]. Qed.

Lemma same_layers_refl st : same_layers st st.
Proof. done. Qed.

Lemma same_layers_trans st1 st2 st3 :
  same_layers st1 st2 -> same_layers st2 st3 -> same_layers st1 st3.
Proof. intros (H1 & H2 & H3) (H4 & H5 & H6). split_and!; congruence. Qed.

(** ** One event at a time *)
Section Events.
Context (cw ch : Z).

Lemma onMouseMove_idle st ox oy :
  selectedImageLayer st = None -> onMouseMove cw ch ox oy st = (Normal tt, st).
Proof. intros Hs. unfold onMouseMove. js_step. by rewrite Hs. Qed.

Lemma unselected_no_flags st l o :
  flags_ok st -> selectedImageLayer st <> Some l -> heap st !! l = Some o ->
  isDragging o = false /\ isResizing o = false.
Proof. intros Hf Hs Ho. pose proof (Hf l o Ho) as H. simpl in H. by case_decide. Qed.

Lemma sel_obj cw' ch' st l :
  canvas_wf cw' ch' st -> selectedImageLayer st = Some l -> exists o, heap st !! l = Some o.
Proof. intros Hwf Hs. pose proof (wf_sel _ _ _ Hwf) as H. unfold sel_live in H. by rewrite Hs in H. Qed.


(** Writing the selected object with its flags unchanged keeps the
    invariants and the machine state. *)
Lemma write_selected st l o o' :
  canvas_wf cw ch st -> flags_ok st -> selectedImageLayer st = Some l -> heap st !! l = Some o ->
  isDragging o' = isDragging o -> isResizing o' = isResizing o -> layer_ok cw ch (nextId st) l o' ->
  let st1 := set_heap (<[l := o']> (heap st)) st in
  canvas_wf cw ch st1 /\ flags_ok st1 /\ gesture_of st1 = gesture_of st.
Proof.
  intros Hwf Hf Hs Ho Hd Hr Hok st1. split_and!.
  - by apply (wf_update cw ch st l o).
  - by apply (flags_ok_same_flags st l o).
  - unfold gesture_of, st1. simpl. rewrite Hs, lookup_insert_eq, Ho, Hr. done.
Qed.

Lemma pointer_up_ok st :
  canvas_wf cw ch st -> flags_ok st ->
  onMouseUp ⇓ st = Normal tt /\ canvas_wf cw ch (exec onMouseUp st) /\
  flags_ok (exec onMouseUp st) /\ gesture_of (exec onMouseUp st) = Idle /\
  same_layers st (exec onMouseUp st).
Proof.
  intros Hwf Hf. destruct (selectedImageLayer st) as [l|] eqn:Hs.
  - destruct (sel_obj cw ch st l Hwf Hs) as [o Ho].
    unfold exec. rewrite (onMouseUp_run st l o) by done. simpl. split_and!; [done| | |done|].
    3:{ exact (same_layers_update st l o (set_isResizing false (set_isDragging false o)) Ho eq_refl). }
    + apply wf_set_selected; [|done]. apply (wf_update cw ch st l o); [done|done|].
      pose proof (wf_layer_ok cw ch st l o Hwf Ho). unfold layer_ok in *. simpl. tauto.
    + intros l' o'. simpl. rewrite lookup_insert_Some. intros [[<- <-]|[Hne Ho']]; [done|].
      try (case_decide; [done|]). apply (unselected_no_flags st l' o'); [done| |done]. rewrite Hs. congruence.
  - unfold exec. rewrite onMouseUp_idle by done. simpl. split_and!; [done|done|done| |done].
    unfold gesture_of. by rewrite Hs.
Qed.

Lemma pointer_move_ok st ox oy :
  canvas_wf cw ch st -> flags_ok st ->
  let st' := exec (onMouseMove cw ch ox oy) st in
  onMouseMove cw ch ox oy ⇓ st = Normal tt /\ canvas_wf cw ch st' /\ flags_ok st' /\
  gesture_of st' = gesture_of st /\ same_layers st st'.
Proof.
  intros Hwf Hf st'. subst st'. destruct (selectedImageLayer st) as [l|] eqn:Hs.
  2:{ unfold exec. rewrite onMouseMove_idle by done. done. }
  destruct (sel_obj cw ch st l Hwf Hs) as [o Ho]. pose proof (Hf l o Ho) as Hx.
  simpl in Hx. rewrite Hs in Hx. rewrite decide_True in Hx by done.
  pose proof (wf_layer_ok cw ch st l o Hwf Ho) as Hok.
  destruct (isDragging o) eqn:Hd, (isResizing o) eqn:Hr; try discriminate.
  - unfold exec. rewrite (onMouseMove_drag cw ch st l o) by done. simpl.
    destruct (write_selected (set_start ox oy st) l o
                (set_y (y o + (oy - startY st)) (set_x (x o + (ox - startX st)) o)))
      as (Hw1 & Hf1 & Hg1);
      [by apply wf_set_start|flags_conv|done|done|done|done|by apply layer_ok_move|].
    split_and!; [done|by apply wf_set_crc|flags_conv| |].
    + unfold gesture_of. simpl. rewrite Hs, lookup_insert_eq, Ho. simpl. by rewrite Hr.
    + exact (same_layers_update (set_start ox oy st) l o
        (set_y (y o + (oy - startY st)) (set_x (x o + (ox - startX st)) o)) Ho eq_refl).
  - unfold exec. rewrite (onMouseMove_resize cw ch st l o) by done. simpl.
    destruct (resize_ok cw ch (ox - x o) (oy - y o)) eqn:Hok'.
    + unfold resize_ok in Hok'. rewrite !andb_true_iff, !Z.ltb_lt, !Z.leb_le in Hok'.
      destruct (write_selected st l o (set_height (oy - y o) (set_width (ox - x o) o)))
        as (Hw1 & Hf1 & Hg1); [done..|apply layer_ok_resize; auto; lia|].
      split_and!; [done|by apply wf_set_crc|flags_conv| |].
      * unfold gesture_of. simpl. rewrite Hs, lookup_insert_eq, Ho. simpl. by rewrite Hr.
      * exact (same_layers_update st l o (set_height (oy - y o) (set_width (ox - x o) o)) Ho eq_refl).
    + split_and!; [done|by apply wf_set_crc|flags_conv|by apply gesture_of_irrel|done].
Qed.

Lemma pointer_down_ok st ox oy :
  canvas_wf cw ch st -> flags_ok st -> gesture_of st = Idle ->
  let st' := exec (onMouseDown ox oy) st in
  onMouseDown ox oy ⇓ st = Normal tt /\ canvas_wf cw ch st' /\ flags_ok st' /\
  gesture_of st' = hit ox oy (view st) /\ same_layers st st'.
Proof.
  intros Hwf Hf Hg st'. subst st'. pose proof (gesture_idle_unselected cw ch st Hwf Hg) as Hs.
  unfold exec. rewrite (onMouseDown_run cw ch) by done.
  destruct (first_match _ (layer_locs st)) as [l|] eqn:Hm.
  - destruct (press_hit_live cw ch st ox oy l Hwf Hm) as (o & Ho & Hid & Hv).
    rewrite Ho. unfold hit. rewrite Hv, Hid. simpl.
    destruct (unselected_no_flags st l o Hf) as [Hd Hr]; [by rewrite Hs|done|].
    pose proof (wf_layer_ok cw ch st l o Hwf Ho) as Hok.
    split_and!; [done| | | |].
    + apply wf_set_selected; [|intros ? [= <-]; simpl; by rewrite lookup_insert_eq].
      apply (wf_update cw ch (set_start ox oy st) l o); [by apply wf_set_start|done|].
      unfold layer_ok in *. destruct (inResizeHandle ox oy o); simpl; tauto.
    + intros l' o'. simpl. rewrite lookup_insert_Some. intros [[<- <-]|[Hne Ho']].
      * rewrite decide_True by done. destruct (inResizeHandle ox oy o); simpl; by rewrite ?Hd, ?Hr.
      * rewrite decide_False by congruence. apply (unselected_no_flags st l' o'); [done| |done].
        by rewrite Hs.
    + unfold gesture_of. simpl. rewrite lookup_insert_eq.
      destruct (inResizeHandle ox oy o); simpl; by rewrite ?Hr.
    + destruct (inResizeHandle ox oy o).
      * exact (same_layers_update (set_start ox oy st) l o (set_isResizing true o) Ho eq_refl).
      * exact (same_layers_update (set_start ox oy st) l o (set_isDragging true o) Ho eq_refl).
  - pose proof (press_hit cw ch st ox oy Hwf) as Hh. rewrite Hm in Hh. simpl in Hh.
    unfold hit. rewrite <- Hh. simpl. split_and!; [done|by apply wf_set_start| | |done].
    + flags_conv.
    + rewrite <- Hg. by apply gesture_of_irrel.
Qed.

End Events.

Lemma run_pointer_cons cw ch e es st st1 :
  on_pointer cw ch e st = (Normal tt, st1) ->
  run_pointer cw ch (e :: es) st = run_pointer cw ch es st1.
Proof. intros H. cbn [run_pointer]. by rewrite js_bind_run, H. Qed.

(** The deltas telescope: their sum is the last position minus the anchor. *)
Lemma deltas_telescope s ps : s + sumZ (deltas s ps) = default s (last ps).
Proof.
  revert s. induction ps as [|p ps IH]; intros s; simpl; [lia|].
  unfold sumZ in *. simpl. rewrite Z.add_assoc, Z.add_sub_assoc, Z.add_simpl_l.
  destruct ps; simpl in *; [lia|]. rewrite <- IH. lia.
Qed.

(** ** The pointer state machine *)
Section Machine.
Context (cw ch : Z).

(** One pointer event in the spec's machine, with what it leaves unchanged. *)
Lemma pointer_step st e :
  canvas_wf cw ch st -> flags_ok st -> bracketed st e ->
  let st' := exec (on_pointer cw ch e) st in
  on_pointer cw ch e ⇓ st = Normal tt /\ canvas_wf cw ch st' /\ flags_ok st' /\
  gesture_of st' = gesture_step (view st) (gesture_of st) e /\ same_layers st st'.
Proof.
  intros Hwf Hf Hb. destruct e as [ox oy|ox oy|]; cbn [on_pointer bracketed gesture_step] in *.
  - rewrite Hb. by apply (pointer_down_ok cw ch).
  - destruct (pointer_move_ok cw ch st ox oy Hwf Hf) as (? & ? & ? & -> & ?). by destruct (gesture_of st).
  - by apply (pointer_up_ok cw ch).
Qed.

(** C5: For a pointer event that does not press while a gesture is active,
    on a well-formed canvas whose flags agree with the selection, the
    canvas handler returns, keeps both invariants, and moves the gesture
    state as the spec's machine does: a press selects the first layer in
    list order under the pointer (resizing on its handle, dragging
    elsewhere, nothing off the layers), a move keeps the state, a release
    returns to idle. *)
Theorem pointer_refines st e :
  canvas_wf cw ch st -> flags_ok st -> bracketed st e ->
  let st' := exec (on_pointer cw ch e) st in
  on_pointer cw ch e ⇓ st = Normal tt /\ canvas_wf cw ch st' /\ flags_ok st' /\
  gesture_of st' = gesture_step (view st) (gesture_of st) e.
Proof.
  intros Hwf Hf Hb. destruct (pointer_step st e Hwf Hf Hb) as (Hn & Hw & Hfl & Hg & _).
  split_and!; assumption.
Qed.

Lemma run_alternating pressed es st :
  canvas_wf cw ch st -> flags_ok st -> (pressed = false -> gesture_of st = Idle) ->
  alternating pressed es = true ->
  run_pointer cw ch es ⇓ st = Normal tt /\ canvas_wf cw ch (exec (run_pointer cw ch es) st) /\
  flags_ok (exec (run_pointer cw ch es) st).
Proof.
  revert pressed st. induction es as [|e es IH]; intros pressed st Hwf Hf Hg Halt; [done|].
  assert (Hb : bracketed st e) by (destruct e; simpl in *; try done;
    apply Hg; destruct pressed; [discriminate|done]).
  destruct (pointer_step st e Hwf Hf Hb) as (Hn & Hw' & Hf' & Hg' & _).
  unfold exec at 1 2. rewrite (run_pointer_cons cw ch e es st (exec (on_pointer cw ch e) st))
    by (by apply exec_normal).
  destruct e as [ox oy|ox oy|]; cbn [alternating gesture_step] in Halt, Hg'.
  - apply andb_true_iff in Halt as [_ Halt]. by apply (IH true).
  - apply (IH pressed); auto. intros Hp. rewrite Hg'. destruct (gesture_of st); auto.
  - apply (IH false); auto.
Qed.

(** C6: When presses and releases alternate (no second press before a
    release), a sequence of pointer events from the idle state keeps the
    canvas well formed and never leaves an object with both [isDragging]
    and [isResizing] set: the flags are mutually exclusive, as the spec's
    data model says. *)
Theorem flags_exclusive st es :
  canvas_wf cw ch st -> flags_ok st -> gesture_of st = Idle -> alternating false es = true ->
  let st' := exec (run_pointer cw ch es) st in
  run_pointer cw ch es ⇓ st = Normal tt /\ canvas_wf cw ch st' /\
  forall l o, heap st' !! l = Some o -> ~ (isDragging o = true /\ isResizing o = true).
Proof.
  intros Hwf Hf Hg Halt. destruct (run_alternating false es st Hwf Hf (fun _ => Hg) Halt) as (Hn & Hw & Hf').
  split_and!; [done|done|]. intros l o Ho [Hd Hr]. pose proof (Hf' l o Ho) as H. simpl in H.
  rewrite Hd, Hr in H. by case_decide; [|destruct H].
Qed.

Lemma drag_move_step st l ox oy :
  canvas_wf cw ch st -> flags_ok st -> gesture_of st = Dragging l ->
  exists o, heap st !! l = Some o /\ isDragging o = true /\ isResizing o = false /\
    selectedImageLayer st = Some l /\
    onMouseMove cw ch ox oy st =
    (Normal tt, exec (onMouseMove cw ch ox oy) st) /\
    heap (exec (onMouseMove cw ch ox oy) st) !! l =
      Some (set_y (y o + (oy - startY st)) (set_x (x o + (ox - startX st)) o)) /\
    startX (exec (onMouseMove cw ch ox oy) st) = ox /\ startY (exec (onMouseMove cw ch ox oy) st) = oy.
Proof.
  intros Hwf Hf Hg. unfold gesture_of in Hg.
  destruct (selectedImageLayer st) as [l'|] eqn:Hs; [|done].
  destruct (heap st !! l') as [o|] eqn:Ho; [|done].
  destruct (isResizing o) eqn:Hr; [done|]. injection Hg as ->.
  pose proof (Hf l o Ho) as Hx. simpl in Hx. rewrite Hs, decide_True, Hr in Hx by done.
  destruct (isDragging o) eqn:Hd; [|done].
  exists o. unfold exec. rewrite (onMouseMove_drag cw ch st l o) by done. simpl.
  split_and!; try done. apply lookup_insert_eq.
Qed.

(** C8: A drag is tracked incrementally: over any sequence of pointer moves
    during a drag, the layer's position changes by the sum of the deltas
    between consecutive pointer positions (starting from the press), its
    size does not change, and the gesture stays a drag. *)
Theorem drag_accumulates st l pts :
  canvas_wf cw ch st -> flags_ok st -> gesture_of st = Dragging l ->
  let st' := exec (run_pointer cw ch (moves pts)) st in
  run_pointer cw ch (moves pts) ⇓ st = Normal tt /\ gesture_of st' = Dragging l /\
  exists o o', heap st !! l = Some o /\ heap st' !! l = Some o' /\
    x o' = x o + sumZ (deltas (startX st) (fst <$> pts)) /\
    y o' = y o + sumZ (deltas (startY st) (snd <$> pts)) /\
    width o' = width o /\ height o' = height o.
Proof.
  revert st. induction pts as [|[px py] pts IH]; intros st Hwf Hf Hg.
  - unfold gesture_of in Hg. destruct (selectedImageLayer st) as [l'|] eqn:Hs; [|done].
    destruct (heap st !! l') as [o|] eqn:Ho; [|done]. destruct (isResizing o) eqn:Hr; [done|].
    injection Hg as ->. unfold exec. cbn. split_and!; [done|unfold gesture_of; by rewrite Hs, Ho, Hr|].
    exists o, o. unfold sumZ. simpl. split_and!; auto; lia.
  - destruct (drag_move_step st l px py Hwf Hf Hg) as (o & Ho & Hd & Hr & Hs & Hrun & Ho1 & Hx1 & Hy1).
    destruct (pointer_move_ok cw ch st px py Hwf Hf) as (_ & Hw1 & Hf1 & Hg1 & _).
    cbn [moves fmap list_fmap]. unfold exec at 1 2.
    rewrite (run_pointer_cons cw ch (Move px py) _ st (exec (onMouseMove cw ch px py) st)) by exact Hrun.
    rewrite Hg in Hg1. destruct (IH _ Hw1 Hf1 Hg1) as (Hn & Hg2 & o1 & o2 & Ho1' & Ho2 & Hx & Hy & Hw & Hh).
    rewrite Ho1 in Ho1'. injection Ho1' as <-. split_and!; [done|done|].
    exists o, o2. rewrite Hx1, Hy1 in *. unfold sumZ in *. simpl in *. split_and!; auto; lia.
Qed.

(** C9: A move during a resize sets the size to pointer minus origin when
    both new sides are positive and at most the canvas's, and otherwise
    leaves the size as it was (the resize is rejected, not clamped); the
    position never changes. *)
Theorem resize_guarded st l ox oy :
  canvas_wf cw ch st -> flags_ok st -> gesture_of st = Resizing l ->
  let st' := exec (onMouseMove cw ch ox oy) st in
  exists o o', heap st !! l = Some o /\ heap st' !! l = Some o' /\ x o' = x o /\ y o' = y o /\
    ((0 < ox - x o <= cw /\ 0 < oy - y o <= ch) -> width o' = ox - x o /\ height o' = oy - y o) /\
    (~ (0 < ox - x o <= cw /\ 0 < oy - y o <= ch) -> width o' = width o /\ height o' = height o).
Proof.
  intros Hwf Hf Hg. unfold gesture_of in Hg.
  destruct (selectedImageLayer st) as [l'|] eqn:Hs; [|done].
  destruct (heap st !! l') as [o|] eqn:Ho; [|done].
  destruct (isResizing o) eqn:Hr; [|done]. injection Hg as ->.
  pose proof (Hf l o Ho) as Hx. simpl in Hx. rewrite Hs, decide_True, Hr in Hx by done.
  destruct (isDragging o) eqn:Hd; [done|].
  unfold exec. rewrite (onMouseMove_resize cw ch st l o) by done. simpl.
  unfold resize_ok. destruct (Z.ltb_spec 0 (ox - x o)), (Z.ltb_spec 0 (oy - y o)),
    (Z.leb_spec (ox - x o) cw), (Z.leb_spec (oy - y o) ch); simpl;
    first [ exists o, (set_height (oy - y o) (set_width (ox - x o) o));
            rewrite lookup_insert_eq; simpl; split_and!; auto; lia
          | exists o, o; split_and!; auto; lia ].
Qed.

(** The selected object of a drag carries the drag flag only. *)
Lemma gesture_dragging st l :
  flags_ok st -> gesture_of st = Dragging l ->
  exists o, selectedImageLayer st = Some l /\ heap st !! l = Some o /\
            isDragging o = true /\ isResizing o = false.
Proof.
  intros Hf Hg. unfold gesture_of in Hg.
  destruct (selectedImageLayer st) as [l'|] eqn:Hs; [|done].
  destruct (heap st !! l') as [o|] eqn:Ho; [|done].
  destruct (isResizing o) eqn:Hr; [done|]. injection Hg as ->.
  pose proof (Hf l o Ho) as Hx. simpl in Hx. rewrite Hs, decide_True, Hr in Hx by done.
  exists o. by destruct (isDragging o).
Qed.

(** A press on the layer [l] whose drag is in progress, on its handle. *)
Lemma press_on_dragged st l o ox oy :
  canvas_wf cw ch st -> heap st !! l = Some o ->
  first_match (isMouseOverLayer ox oy) (view st) = Some o -> inResizeHandle ox oy o = true ->
  onMouseDown ox oy st =
  (Normal tt, set_selected (Some l) (set_heap (<[l := set_isResizing true o]> (heap st)) (set_start ox oy st))).
Proof.
  intros Hwf Ho Hm Hh. rewrite (onMouseDown_run cw ch) by done.
  destruct (first_match _ (layer_locs st)) as [l'|] eqn:Hm'.
  - destruct (press_hit_live cw ch st ox oy l' Hwf Hm') as (o' & Ho' & Hid & Hv).
    rewrite Hm in Hv. injection Hv as <-. rewrite (wf_ids cw ch st l o Hwf Ho) in Hid. subst l'.
    by rewrite Ho, Hh.
  - pose proof (press_hit cw ch st ox oy Hwf) as Hp. rewrite Hm', Hm in Hp. done.
Qed.

(** C16: A lost release (the pointer released outside the canvas, so no
    [mouseup] reaches it) leaves a drag in progress. A press on the dragged
    layer's resize handle then sets [isResizing] without clearing
    [isDragging], so the object carries both flags and the flags no longer
    agree with the selection. The next move runs both branches of
    [onMouseMove]: the layer moves by the pointer's delta from the press,
    and its size is then set to pointer minus the moved origin when the
    resize guard holds (left unchanged otherwise); a resize from the idle
    state would keep the origin. *)
Theorem missed_release_both_flags st l o ox oy :
  canvas_wf cw ch st -> flags_ok st -> gesture_of st = Dragging l -> heap st !! l = Some o ->
  first_match (isMouseOverLayer ox oy) (view st) = Some o -> inResizeHandle ox oy o = true ->
  let st1 := exec (onMouseDown ox oy) st in
  onMouseDown ox oy ⇓ st = Normal tt /\
  heap st1 !! l = Some (set_isResizing true o) /\ isDragging o = true /\ ~ flags_ok st1 /\
  forall mx my, exists o2, heap (exec (onMouseMove cw ch mx my) st1) !! l = Some o2 /\
    x o2 = x o + (mx - ox) /\ y o2 = y o + (my - oy) /\
    if resize_ok cw ch (mx - x o2) (my - y o2)
    then width o2 = mx - x o2 /\ height o2 = my - y o2
    else width o2 = width o /\ height o2 = height o.
Proof.
  intros Hwf Hf Hg Ho Hm Hh st1.
  destruct (gesture_dragging st l Hf Hg) as (o0 & Hs & Ho0 & Hd & _). rewrite Ho in Ho0. injection Ho0 as <-.
  unfold st1, exec. rewrite (press_on_dragged st l o) by done. cbn [fst snd].
  set (o1 := set_isResizing true o).
  set (st2 := set_selected (Some l) (set_heap (<[l := o1]> (heap st)) (set_start ox oy st))).
  assert (Hl2 : heap st2 !! l = Some o1) by apply lookup_insert_eq.
  assert (Hwf2 : canvas_wf cw ch st2).
  { apply wf_set_selected; [|intros ? [= <-]; simpl; by rewrite lookup_insert_eq].
    apply (wf_update cw ch (set_start ox oy st) l o); [by apply wf_set_start|done|].
    exact (proj2 (proj2 (layer_ok_flags cw ch _ l o true true (wf_layer_ok cw ch st l o Hwf Ho)))). }
  split_and!; [done|done|done| |].
  - intros Hf2. pose proof (Hf2 l o1 Hl2) as Hx. simpl in Hx.
    rewrite decide_True in Hx by done. simpl in Hx. by rewrite Hd in Hx.
  - intros mx my. rewrite (onMouseMove_dragging cw ch st2 l o1 mx my Hwf2 eq_refl Hl2 Hd). cbn [isResizing o1 set_isResizing].
    set (o1' := set_y (y o1 + (my - startY st2)) (set_x (x o1 + (mx - startX st2)) o1)).
    set (st3 := set_heap (<[l := o1']> (heap st2)) (set_start mx my st2)).
    assert (Hwf3 : canvas_wf cw ch (set_crc (redrawn cw ch (view st3) (crc st3)) st3)).
    { apply wf_set_crc, (wf_update cw ch (set_start mx my st2) l o1); [by apply wf_set_start|done|].
      by apply layer_ok_move, (wf_layer_ok cw ch st2). }
    rewrite (resize_step_run cw ch _ l o1' mx my Hwf3) by apply lookup_insert_eq.
    cbn [snd heap set_crc]. destruct (resize_ok _ _ _ _) eqn:Hok.
    + eexists. split; [apply lookup_insert_eq|].
      change (x (set_height _ (set_width _ ?o))) with (x o).
      change (y (set_height _ (set_width _ ?o))) with (y o).
      rewrite Hok. subst o1' st2 o1. simpl. split_and!; lia.
    + eexists. split; [apply lookup_insert_eq|]. rewrite Hok. subst o1' st2 o1. simpl. split_and!; lia.
Qed.

End Machine.

(** ** Witnesses on the concrete canvases *)

Ltac decide_concrete := apply (bool_decide_unpack _); vm_compute; reflexivity.

Lemma pointer_refines_witness :
  canvas_wf 800 600 demo_one /\ flags_ok demo_one /\ bracketed demo_one (Down 60 60) /\
  gesture_of (exec (on_pointer 800 600 (Down 60 60)) demo_one) =
  gesture_step (view demo_one) (gesture_of demo_one) (Down 60 60).
Proof.
  assert (H1 : canvas_wf 800 600 demo_one) by decide_concrete.
  assert (H2 : flags_ok demo_one) by decide_concrete.
  assert (H3 : bracketed demo_one (Down 60 60)) by (vm_compute; reflexivity).
  split_and!; [exact H1|exact H2|exact H3|].
  exact (proj2 (proj2 (proj2 (pointer_refines 800 600 demo_one (Down 60 60) H1 H2 H3)))).
Defined.

Definition two_gestures : list PointerEvent :=
  [Down 60 60; Move 80 80; Up; Down 100 100; Move 120 120; Up].

Lemma flags_exclusive_witness :
  canvas_wf 800 600 demo_one /\ flags_ok demo_one /\ gesture_of demo_one = Idle /\
  alternating false two_gestures = true /\
  run_pointer 800 600 two_gestures ⇓ demo_one = Normal tt.
Proof.
  assert (H1 : canvas_wf 800 600 demo_one) by decide_concrete.
  assert (H2 : flags_ok demo_one) by decide_concrete.
  assert (H3 : gesture_of demo_one = Idle) by (vm_compute; reflexivity).
  assert (H4 : alternating false two_gestures = true) by (vm_compute; reflexivity).
  split_and!; [exact H1|exact H2|exact H3|exact H4|].
  exact (proj1 (flags_exclusive 800 600 demo_one two_gestures H1 H2 H3 H4)).
Defined.

(** The spec's example (section 8): a 50 x 50 layer at (50, 50), pressed at
    (60, 60) and dragged by (+20, +20) twice, ends at (90, 90). *)
Lemma drag_accumulates_witness :
  let st := exec (onMouseDown 60 60) demo_one in
  canvas_wf 800 600 st /\ flags_ok st /\ gesture_of st = Dragging 0 /\
  exists o o', heap st !! 0 = Some o /\
    heap (exec (run_pointer 800 600 (moves [(80, 80); (100, 100)])) st) !! 0 = Some o' /\
    x o' = x o + sumZ (deltas (startX st) [80; 100]) /\ x o = 50 /\ startX st = 60.
Proof.
  intros st.
  assert (H1 : canvas_wf 800 600 st) by decide_concrete.
  assert (H2 : flags_ok st) by decide_concrete.
  assert (H3 : gesture_of st = Dragging 0) by (vm_compute; reflexivity).
  split_and!; [exact H1|exact H2|exact H3|].
  destruct (drag_accumulates 800 600 st 0 [(80, 80); (100, 100)] H1 H2 H3)
    as (_ & _ & o & o' & Ho & Ho' & Hx & _).
  exists o, o'. split_and!; [exact Ho|exact Ho'|exact Hx| |vm_compute; reflexivity].
  revert Ho. vm_compute. intros [= <-]. reflexivity.
Defined.

(** The spec's resize example: pressing on the handle of the layer at
    (50, 50) and moving to (90, 90) gives a 40 x 40 layer. *)
Lemma resize_guarded_witness :
  let st := exec (onMouseDown 100 100) demo_one in
  canvas_wf 800 600 st /\ flags_ok st /\ gesture_of st = Resizing 0 /\
  exists o o', heap st !! 0 = Some o /\ heap (exec (onMouseMove 800 600 90 90) st) !! 0 = Some o' /\
    ((0 < 90 - x o <= 800 /\ 0 < 90 - y o <= 600) -> width o' = 90 - x o /\ height o' = 90 - y o).
Proof.
  intros st.
  assert (H1 : canvas_wf 800 600 st) by decide_concrete.
  assert (H2 : flags_ok st) by decide_concrete.
  assert (H3 : gesture_of st = Resizing 0) by (vm_compute; reflexivity).
  split_and!; [exact H1|exact H2|exact H3|].
  destruct (resize_guarded 800 600 st 0 90 90 H1 H2 H3) as (o & o' & Ho & Ho' & _ & _ & Hin & _).
  exists o, o'. split_and!; [exact Ho|exact Ho'|exact Hin].
Defined.

(** The lost release on [demo_one]: a drag started at (60, 60), then a
    press at (97, 97) on the handle and a move to (120, 120): the layer ends
    at (73, 73) and 47 x 47, moved and resized at once. *)
Lemma missed_release_both_flags_witness :
  let st := exec (onMouseDown 60 60) demo_one in
  canvas_wf 800 600 st /\ flags_ok st /\ gesture_of st = Dragging 0 /\
  ~ flags_ok (exec (onMouseDown 97 97) st) /\
  (exists o2, heap (exec (onMouseMove 800 600 120 120) (exec (onMouseDown 97 97) st)) !! 0 = Some o2 /\
              x o2 = 73 /\ y o2 = 73 /\ width o2 = 47 /\ height o2 = 47).
Proof.
  intros st.
  assert (H1 : canvas_wf 800 600 st) by decide_concrete.
  assert (H2 : flags_ok st) by decide_concrete.
  assert (H3 : gesture_of st = Dragging 0) by (vm_compute; reflexivity).
  assert (Ho : heap st !! 0 = Some (MkLayer 0 (MkImage (demo_file "a.png") 50 50) 50 50 50 50 true false 10))
    by (vm_compute; reflexivity).
  assert (Hm : first_match (isMouseOverLayer 97 97) (view st) =
               Some (MkLayer 0 (MkImage (demo_file "a.png") 50 50) 50 50 50 50 true false 10))
    by (vm_compute; reflexivity).
  assert (Hh : inResizeHandle 97 97 (MkLayer 0 (MkImage (demo_file "a.png") 50 50) 50 50 50 50 true false 10) = true)
    by reflexivity.
  destruct (missed_release_both_flags 800 600 st 0 _ 97 97 H1 H2 H3 Ho Hm Hh) as (_ & _ & _ & Hnf & _).
  split_and!; [exact H1|exact H2|exact H3|exact Hnf|].
  vm_compute. eexists; split_and!; reflexivity.
Defined.
