(* ===== verification/Ingest.v ===== *)
(** * File ingestion: the [file] setter, the reader and image [onload]s

    Choosing a file queues a read; when a read completes the image is
    decoded and, if it decodes, a layer of the image's size clamped to the
    canvas is pushed at (50, 50) with the id [nextId], which is then
    incremented. An undecodable file is dropped silently. This file proves
    the effect of one completion, that loading files in the order they were
    chosen gives consecutive increasing ids, and that ingestion keeps the
    invariant. *)
From S2P Require Import Prelude JsArray Layer LayerStack Canvas Demo CanvasWf.

(** Choosing the files [fs] one after the other. *)
Fixpoint select_all (fs : list File) : CM unit :=
  match fs with
  | [] => mret tt
  | f :: fs' => onFileSelected f ;; select_all fs'
  end.

(** [n] reads completing in the order they were started. *)
Fixpoint load_fifo (cw ch : Z) (n : nat) : CM unit :=
  match n with
  | O => mret tt
  | S n' => file_loaded cw ch 0 ;; load_fifo cw ch n'
  end.

(** The layer the image [onload] closure creates. *)
Definition new_layer (cw ch : Z) (n : Z) (img : Image) : ImageLayer :=
  MkLayer n img 50 50 (Z.min (img_width img) cw) (Z.min (img_height img) ch) false false 10.

(** The layers that loading the decodable files [fs] in order adds, from id [n]. *)
Fixpoint loaded_layers (cw ch : Z) (n : Z) (fs : list File) : list ImageLayer :=
  match fs with
  | [] => []
  | f :: fs' =>
      match file_dims f with
      | Some (w, h) => new_layer cw ch n (MkImage f w h) :: loaded_layers cw ch (n + 1) fs'
      | None => loaded_layers cw ch n fs'
      end
  end.

Definition decodable (f : File) : Prop :=
  exists w h, file_dims f = Some (w, h) /\ 0 <= w /\ 0 <= h.

Lemma omap_insert_fresh (h : gmap loc ImageLayer) (L : list loc) l o :
  l ∉ L -> omap (fun k => <[l := o]> h !! k) L = omap (fun k => h !! k) L.
Proof.
  induction L as [|k L IH]; intros Hn; [done|]. rewrite !omap_cons_eq.
  rewrite lookup_insert_ne by set_solver. rewrite IH by set_solver. done.
Qed.

Section Load.
Context (cw ch : Z) (Hcw : 0 <= cw) (Hch : 0 <= ch).

(** References in the array are below [nextId], so [nextId] is fresh. *)
Lemma next_fresh st : canvas_wf cw ch st -> heap st !! nextId st = None /\ nextId st ∉ layer_locs st.
Proof.
  intros Hwf. split.
  - destruct (heap st !! nextId st) as [o|] eqn:Ho; [|done].
    destruct (wf_heap _ _ _ Hwf _ _ Ho) as (_ & Hlt & _). lia.
  - intros Hin. pose proof (wf_live _ _ _ Hwf) as Hl. unfold all_live in Hl.
    rewrite Forall_forall in Hl. destruct (Hl _ Hin) as [o Ho]. destruct (wf_heap _ _ _ Hwf _ _ Ho) as (_ & Hlt & _). lia.
Qed.

Definition after_push (st : CanvasComponent) (img : Image) : CanvasComponent :=
  MkCanvas (arr_of (layer_locs st ++ [nextId st])) (selectedImageLayer st) (nextId st + 1)
           (startX st) (startY st) (<[nextId st := new_layer cw ch (nextId st) img]> (heap st))
           (crc st) (pending st).

Lemma wf_after_push st img :
  canvas_wf cw ch st -> 0 <= img_width img -> 0 <= img_height img ->
  canvas_wf cw ch (after_push st img).
Proof.
  intros Hwf Hw Hh. destruct (next_fresh st Hwf) as [Hfresh Hnotin].
  destruct Hwf as [Hc Hnd Hlive Hheap Hnext Hsel Hp].
  constructor; unfold after_push; simpl; rewrite ?layer_locs_arr_of.
  - unfold layer_locs. simpl. by rewrite arr_of_locs.
  - unfold layer_locs at 1. simpl. rewrite arr_of_locs. apply NoDup_app. split_and!; auto.
    + intros l Hl Hl'. apply list_elem_of_singleton in Hl'. subst. done.
    + apply NoDup_singleton.
  - unfold layer_locs. simpl. rewrite arr_of_locs. unfold all_live. apply Forall_app. split.
    + eapply Forall_impl; [exact Hlive|]. intros l [o Ho]. simpl.
      rewrite lookup_insert_ne; [by eexists|]. intros <-. congruence.
    + constructor; [|done]. simpl. rewrite lookup_insert_eq. by eexists.
  - apply map_Forall_insert_2.
    + unfold layer_ok, new_layer. simpl. split_and!; try done; lia.
    + intros l o Ho. destruct (Hheap l o Ho) as (? & ? & ?). unfold layer_ok. split_and!; auto; lia.
  - lia.
  - unfold sel_live in *. simpl. destruct (selectedImageLayer st) as [l|]; [|done].
    destruct Hsel as [o Ho]. rewrite lookup_insert_ne; [by eexists|]. intros <-. congruence.
  - done.
Qed.

Lemma view_after_push st img :
  canvas_wf cw ch st -> view (after_push st img) = LayerStack.add (new_layer cw ch (nextId st) img) (view st).
Proof.
  intros Hwf. destruct (next_fresh st Hwf) as [_ Hnotin].
  unfold view at 1. rewrite (layer_locs_clean (after_push st img) _ eq_refl).
  unfold view, after_push, LayerStack.add. cbn [heap]. rewrite omap_app.
  rewrite omap_insert_fresh by done. rewrite omap_cons_eq, lookup_insert_eq. done.
Qed.

(** The image [onload] closure on a well-formed canvas. *)
Lemma img_onload_run st img :
  canvas_wf cw ch st -> 0 <= img_width img -> 0 <= img_height img ->
  img_onload cw ch img st =
  (Normal tt, set_crc (redrawn cw ch (view (after_push st img)) (crc st)) (after_push st img)).
Proof.
  intros Hwf Hw Hh. unfold img_onload. js_step. js_step.
  replace (js_push (imageLayers st) (nextId st)) with (arr_of (layer_locs st ++ [nextId st]))
    by (rewrite (wf_clean _ _ _ Hwf) at 1; by rewrite js_push_clean).
  apply (redrawCanvas_wf cw ch (after_push st img)). by apply wf_after_push.
Qed.

Lemma wf_set_pending st P :
  canvas_wf cw ch st -> Forall file_ok P -> canvas_wf cw ch (set_pending P st).
Proof. intros [] HP. by constructor. Qed.

Lemma wf_canvas_init : canvas_wf cw ch (canvas_init cw ch).
Proof.
  apply (bool_decide_unpack _). vm_compute. reflexivity.
Qed.

Lemma file_loaded_run st k f :
  pending st !! k = Some f ->
  file_loaded cw ch k st =
  match file_dims f with
  | Some (w, h) => img_onload cw ch (MkImage f w h) (set_pending (delete k (pending st)) st)
  | None => (Normal tt, set_pending (delete k (pending st)) st)
  end.
Proof.
  intros Hk. unfold file_loaded. js_step. rewrite Hk. js_step.
  destruct (file_dims f) as [[w h]|]; reflexivity.
Qed.

Lemma select_all_run fs st :
  select_all fs st = (Normal tt, set_pending (pending st ++ fs) st).
Proof.
  revert st. induction fs as [|f fs IH]; intros st.
  - simpl. rewrite app_nil_r. by destruct st.
  - cbn [select_all]. js_step. unfold onFileSelected, set_file. cbv [modify_st].
    rewrite IH. simpl. by rewrite <- app_assoc.
Qed.

(** The effect of one completed read (see [file_loaded_spec]). *)
Lemma file_loaded_step st k f :
  canvas_wf cw ch st -> pending st !! k = Some f ->
  let st' := exec (file_loaded cw ch k) st in
  file_loaded cw ch k ⇓ st = Normal tt /\ canvas_wf cw ch st' /\
  pending st' = delete k (pending st) /\
  match file_dims f with
  | Some (w, h) =>
      view st' = LayerStack.add (MkLayer (nextId st) (MkImage f w h) 50 50
                                   (Z.min w cw) (Z.min h ch) false false 10) (view st) /\
      nextId st' = nextId st + 1 /\ crc st' = redrawn cw ch (view st') (crc st)
  | None => view st' = view st /\ nextId st' = nextId st /\ crc st' = crc st
  end.
Proof.
  intros Hwf Hk.
  assert (Hfo : file_ok f) by (exact (Forall_lookup_1 _ _ _ _ (wf_pending _ _ _ Hwf) Hk)).
  assert (Hw1 : canvas_wf cw ch (set_pending (delete k (pending st)) st))
    by (apply wf_set_pending; [done|apply Forall_delete, Hwf]).
  unfold exec. rewrite (file_loaded_run st k f Hk). unfold file_ok in Hfo.
  destruct (file_dims f) as [[w h]|].
  - rewrite img_onload_run by (simpl; lia || done). simpl.
    rewrite view_set_crc, view_after_push by done. split_and!; try done.
    apply wf_set_crc, wf_after_push; simpl; lia || done.
  - simpl. split_and!; done.
Qed.

(** C10: One completed read: on a well-formed canvas the completion of the
    [k]-th pending read returns and keeps the invariant, and removes the
    read from the queue; a decodable file adds, on top of the others, a
    layer with the id [nextId] at (50, 50) whose size is the image's
    clamped to the canvas, increments [nextId] and redraws; an undecodable
    file changes nothing else and raises no error. *)
Theorem file_loaded_spec st k f :
  canvas_wf cw ch st -> pending st !! k = Some f ->
  let st' := exec (file_loaded cw ch k) st in
  file_loaded cw ch k ⇓ st = Normal tt /\ canvas_wf cw ch st' /\
  pending st' = delete k (pending st) /\
  match file_dims f with
  | Some (w, h) =>
      view st' = LayerStack.add (MkLayer (nextId st) (MkImage f w h) 50 50
                                   (Z.min w cw) (Z.min h ch) false false 10) (view st) /\
      nextId st' = nextId st + 1 /\ crc st' = redrawn cw ch (view st') (crc st)
  | None => view st' = view st /\ nextId st' = nextId st /\ crc st' = crc st
  end.
Proof. apply file_loaded_step. Qed.

Lemma load_fifo_run st fs :
  canvas_wf cw ch st -> pending st = fs ->
  let st' := exec (load_fifo cw ch (length fs)) st in
  load_fifo cw ch (length fs) ⇓ st = Normal tt /\ canvas_wf cw ch st' /\ pending st' = [] /\
  view st' = view st ++ loaded_layers cw ch (nextId st) fs.
Proof.
  revert st. induction fs as [|f fs IH]; intros st Hwf Hp.
  - cbn. split_and!; [done|done|done|]. by rewrite app_nil_r.
  - assert (Hk : pending st !! 0%nat = Some f) by (by rewrite Hp).
    destruct (file_loaded_step st 0 f Hwf Hk) as (Hn & Hw' & Hp' & Hcase).
    rewrite Hp in Hp'. cbn [length load_fifo].
    rewrite (exec_bind_normal _ _ st Hn), (out_bind_normal _ _ st Hn).
    destruct (IH _ Hw' Hp') as (Hn2 & Hw2 & Hp2 & Hv2).
    split_and!; try done. rewrite Hv2. cbn [loaded_layers].
    destruct (file_dims f) as [[w h]|]; destruct Hcase as (Hv & Hnext & _); rewrite Hv, Hnext;
      unfold LayerStack.add, new_layer; simpl; by rewrite <- ?app_assoc.
Qed.

Lemma loaded_layers_ids n fs :
  Forall decodable fs -> id <$> loaded_layers cw ch n fs = seqZ n (Z.of_nat (length fs)).
Proof.
  revert n. induction fs as [|f fs IH]; intros n Hd; [done|].
  inversion Hd as [|? ? (w & h & Hf & _) Hd']; subst. cbn [loaded_layers]. rewrite Hf.
  rewrite fmap_cons, IH by done. rewrite length_cons, Nat2Z.inj_succ, (seqZ_cons n) by lia.
  replace (Z.succ n) with (n + 1) by lia. rewrite Z.pred_succ. reflexivity.
Qed.

Lemma loaded_layers_files n fs :
  Forall decodable fs -> (fun o => img_file (image o)) <$> loaded_layers cw ch n fs = fs.
Proof.
  revert n. induction fs as [|f fs IH]; intros n Hd; [done|].
  inversion Hd as [|? ? (w & h & Hf & _) Hd']; subst. cbn [loaded_layers]. rewrite Hf.
  rewrite fmap_cons, IH by done. done.
Qed.

(** C11: Choosing N decodable files on a fresh canvas and letting their
    reads complete in the order they were started yields N layers, in that
    order, with the ids 0, 1, ..., N-1 (unique and strictly increasing) and
    the images of the chosen files; the canvas stays well formed. *)
Theorem ingest_ids fs :
  Forall decodable fs ->
  let run := select_all fs ;; load_fifo cw ch (length fs) in
  let st' := exec run (canvas_init cw ch) in
  run ⇓ canvas_init cw ch = Normal tt /\
  id <$> view st' = seqZ 0 (Z.of_nat (length fs)) /\
  (fun o => img_file (image o)) <$> view st' = fs /\ canvas_wf cw ch st'.
Proof.
  intros Hd. cbv zeta.
  assert (Hs : select_all fs ⇓ canvas_init cw ch = Normal tt) by (by rewrite select_all_run).
  rewrite (exec_bind_normal _ _ _ Hs), (out_bind_normal _ _ _ Hs).
  assert (He : exec (select_all fs) (canvas_init cw ch) =
               set_pending (pending (canvas_init cw ch) ++ fs) (canvas_init cw ch))
    by (unfold exec; by rewrite select_all_run).
  assert (Hw : canvas_wf cw ch (exec (select_all fs) (canvas_init cw ch))).
  { rewrite He. apply wf_set_pending; [apply wf_canvas_init|]. simpl. eapply Forall_impl; [exact Hd|].
    intros f (w & h & Hf & ? & ?). unfold file_ok. by rewrite Hf. }
  destruct (load_fifo_run _ fs Hw ltac:(by rewrite He)) as (Hn & Hw' & _ & Hv).
  split_and!; [done| | |done]; rewrite Hv, He; simpl.
  - by apply loaded_layers_ids.
  - by apply loaded_layers_files.
Qed.

End Load.

Lemma file_loaded_spec_witness :
  canvas_wf 800 600 (exec (onFileSelected (demo_file "b.png")) demo_one) /\
  pending (exec (onFileSelected (demo_file "b.png")) demo_one) !! 0%nat = Some (demo_file "b.png") /\
  file_loaded 800 600 0 ⇓ exec (onFileSelected (demo_file "b.png")) demo_one = Normal tt.
Proof.
  assert (H1 : canvas_wf 800 600 (exec (onFileSelected (demo_file "b.png")) demo_one))
    by (apply (bool_decide_unpack _); vm_compute; reflexivity).
  assert (H2 : pending (exec (onFileSelected (demo_file "b.png")) demo_one) !! 0%nat = Some (demo_file "b.png"))
    by (vm_compute; reflexivity).
  split_and!; [exact H1|exact H2|].
  exact (proj1 (file_loaded_spec 800 600 ltac:(lia) ltac:(lia) _ 0 _ H1 H2)).
Defined.

Lemma ingest_ids_witness :
  Forall decodable [demo_file "a.png"; demo_file "b.png"; demo_file "c.png"] /\
  id <$> view (exec (select_all [demo_file "a.png"; demo_file "b.png"; demo_file "c.png"] ;;
                     load_fifo 800 600 3) (canvas_init 800 600)) = [0; 1; 2].
Proof.
  assert (H : Forall decodable [demo_file "a.png"; demo_file "b.png"; demo_file "c.png"])
    by (assert (Hdf : forall n, decodable (demo_file n))
          by (intros n; exists 50, 50; split_and!; [reflexivity|lia|lia]);
        repeat (apply Forall_cons_2; [apply Hdf|]); apply Forall_nil_2).
  split; [exact H|].
  exact (proj1 (proj2 (ingest_ids 800 600 ltac:(lia) ltac:(lia) _ H))).
Defined.
