(* ===== verification/Sidebar.v ===== *)
(** * SidebarComponent (src/src/app/sidebar/sidebar.component.ts)

    The sidebar keeps its own list of chosen files, each with an id from its
    own counter [nextId], and reports the user's actions through four
    outputs. Emission is synchronous; a handler returns the new state and
    the events it emitted, in order. The sidebar never reorders its list:
    the move buttons only emit. *)
From S2P Require Import Prelude Layer.

(** An entry [{ id: number; file: File }]. *)
Record SidebarEntry := MkEntry { entry_id : Z; entry_file : File }.

Record SidebarComponent := MkSidebar {
  files : list SidebarEntry;
  sb_nextId : Z
}.

(** The four [@Output] emitters (lines 16-19). *)
Inductive SidebarEvent :=
| FileSelected (f : File)
| DeleteSelected (i : Z)
| MoveUpSelected (i : Z)
| MoveDownSelected (i : Z).

(** The field initialisers (lines 21-22). *)
Definition sidebar_init : SidebarComponent := MkSidebar [] 0.

(** [onFileChange(event)] (lines 24-33): only the first chosen file is
    taken; resetting the input's value is DOM state and not modelled. *)
Definition onFileChange (selectedFiles : list File) (sb : SidebarComponent)
  : SidebarComponent * list SidebarEvent :=
  match selectedFiles with
  | file :: _ =>
      let i := sb_nextId sb in
      (MkSidebar (files sb ++ [MkEntry i file]) (i + 1), [FileSelected file])
  | [] => (sb, [])
  end.

(** [onDelete(id)] (lines 35-38). *)
Definition onDelete (i : Z) (sb : SidebarComponent) : SidebarComponent * list SidebarEvent :=
  (MkSidebar (filter (fun f => entry_id f <> i) (files sb)) (sb_nextId sb), [DeleteSelected i]).

(** [onMoveUp(id)] (lines 40-42). *)
Definition onMoveUp (i : Z) (sb : SidebarComponent) : SidebarComponent * list SidebarEvent :=
  (sb, [MoveUpSelected i]).

(** [onMoveDown(id)] (lines 44-46). *)
Definition onMoveDown (i : Z) (sb : SidebarComponent) : SidebarComponent * list SidebarEvent :=
  (sb, [MoveDownSelected i]).

(** What a component that listens to the sidebar provides: one handler per
    output, in the monad of its own state. *)
Record SidebarListener (St : Type) := {
  on_fileSelected : File -> js St unit;
  on_deleteSelected : Z -> js St unit;
  on_moveUpSelected : Z -> js St unit;
  on_moveDownSelected : Z -> js St unit
}.
Arguments on_fileSelected {St} _ _.
Arguments on_deleteSelected {St} _ _.
Arguments on_moveUpSelected {St} _ _.
Arguments on_moveDownSelected {St} _ _.

(** [emit] on the output an event belongs to. *)
Definition emit {St} (L : SidebarListener St) (ev : SidebarEvent) : js St unit :=
  match ev with
  | FileSelected f => on_fileSelected L f
  | DeleteSelected i => on_deleteSelected L i
  | MoveUpSelected i => on_moveUpSelected L i
  | MoveDownSelected i => on_moveDownSelected L i
  end.

(** The ids of the sidebar's entries. *)
Definition entry_ids (sb : SidebarComponent) : list Z := entry_id <$> files sb.

#[export] Instance File_eq_dec : EqDecision File.
Proof. solve_decision. Defined.

#[export] Instance SidebarEntry_eq_dec : EqDecision SidebarEntry.
Proof. solve_decision. Defined.

(** ** Facts *)

Lemma onFileChange_ids fs f sb :
  onFileChange (f :: fs) sb = (MkSidebar (files sb ++ [MkEntry (sb_nextId sb) f]) (sb_nextId sb + 1),
                               [FileSelected f]).
Proof. reflexivity. Qed.

Lemma onFileChange_empty sb : onFileChange [] sb = (sb, []).
Proof. reflexivity. Qed.

(** Ids stay below the counter, so a new entry's id is fresh. *)
Lemma onFileChange_fresh fs sb :
  Forall (fun i => i < sb_nextId sb) (entry_ids sb) ->
  Forall (fun i => i < sb_nextId (onFileChange fs sb).1) (entry_ids (onFileChange fs sb).1).
Proof.
  destruct fs as [|f fs]; [done|]. simpl. unfold entry_ids. simpl. rewrite fmap_app.
  intros H. apply Forall_app. split; [|constructor; [simpl; lia|done]].
  eapply Forall_impl; [exact H|]. simpl. lia.
Qed.
