(* ===== verification/App.v ===== *)
(** * The application: routing, and the sidebar wired to the canvas

    [routes] is the routing table of app-routing.module.ts. The rest of the
    file composes the two components as the page does: the sidebar's four
    outputs are bound to the canvas's [onFileSelected], [onDeleteSelected],
    [onMoveUpSelected] and [onMoveDownSelected] (the template is not under
    src/; the bindings follow the spec's section 6), pointer events go to
    the canvas, and the browser completes pending reads in any order. An
    exception thrown by a handler ends that handler only; the page goes on
    and the exception is recorded.

    The sidebar and the canvas number files with two separate counters.
    [synced] says that they agree: the sidebar's entries are, up to order,
    the canvas's layers followed by the pending reads with the ids they
    will receive. It is kept by every event while files decode, reads
    complete in the order they were started, no entry is deleted while its
    read is pending, a move-down names a layer already on the canvas (the
    move-down of a loading entry is the unknown-id defect of [LayerList]),
    and presses start from the idle state. The theorems at the end of the
    file show that the first three assumptions are necessary, each with a
    concrete trace. *)
From S2P Require Import Prelude JsArray Layer LayerStack Canvas Demo CanvasWf Gesture Ingest Sidebar.

(** ** Routing (app-routing.module.ts, lines 6-9) *)

Inductive RouteTarget := HomeComponent | CanvasRoute.

Definition routes : list (string * RouteTarget) := [(EmptyString, HomeComponent); ("canvas", CanvasRoute)].

(** The component a path shows; a path no route matches shows none. Both
    routes have no children, so a route matches only the whole path: the
    default prefix matching of the empty path fails on a nonempty URL. *)
Definition route (path : string) : option RouteTarget :=
  (fun r => r.2) <$> head (filter (fun r => r.1 = path) routes).

Lemma route_cases p :
  route p = if decide (p = EmptyString) then Some HomeComponent
            else if decide (p = "canvas") then Some CanvasRoute else None.
Proof. unfold route, routes. rewrite !filter_cons, filter_nil. by repeat case_decide; simplify_eq. Qed.

(** ** The page *)

(** The template bindings of the sidebar's outputs to the canvas. *)
Definition canvas_listener (cw ch : Z) : SidebarListener CanvasComponent := {|
  on_fileSelected := onFileSelected;
  on_deleteSelected := onDeleteSelected cw ch;
  on_moveUpSelected := onMoveUpSelected cw ch;
  on_moveDownSelected := onMoveDownSelected cw ch
|}.

Fixpoint emit_all {St} (L : SidebarListener St) (evs : list SidebarEvent) : js St unit :=
  match evs with
  | [] => mret tt
  | e :: es => emit L e ;; emit_all L es
  end.

Record App := MkApp {
  app_sidebar : SidebarComponent;
  app_canvas : CanvasComponent;
  app_errors : list exn
}.

Inductive UIEvent :=
| PickFiles (fs : list File)
| ClickDelete (i : Z)
| ClickUp (i : Z)
| ClickDown (i : Z)
| PointerEv (e : PointerEvent)
| ReadDone (k : nat).

(** Run a canvas computation from the page, recording an exception. *)
Definition run_canvas (m : CM unit) (sb : SidebarComponent) (a : App) : App :=
  let '(o, c) := m (app_canvas a) in
  MkApp sb c (match o with Thrown e => app_errors a ++ [e] | Normal _ => app_errors a end).

Definition sidebar_then_canvas (cw ch : Z) (r : SidebarComponent * list SidebarEvent) (a : App) : App :=
  run_canvas (emit_all (canvas_listener cw ch) r.2) r.1 a.

(** One event of the page. *)
Definition app_step (cw ch : Z) (a : App) (ev : UIEvent) : App :=
  match ev with
  | PickFiles fs => sidebar_then_canvas cw ch (onFileChange fs (app_sidebar a)) a
  | ClickDelete i => sidebar_then_canvas cw ch (onDelete i (app_sidebar a)) a
  | ClickUp i => sidebar_then_canvas cw ch (onMoveUp i (app_sidebar a)) a
  | ClickDown i => sidebar_then_canvas cw ch (onMoveDown i (app_sidebar a)) a
  | PointerEv e => run_canvas (on_pointer cw ch e) (app_sidebar a) a
  | ReadDone k => run_canvas (file_loaded cw ch k) (app_sidebar a) a
  end.

Definition app_init (cw ch : Z) : App := MkApp sidebar_init (canvas_init cw ch) [].

Definition run_app (cw ch : Z) (a : App) (evs : list UIEvent) : App := foldl (app_step cw ch) a evs.

(** ** Agreement of the two numberings *)

Definition layer_entry (o : ImageLayer) : SidebarEntry := MkEntry (id o) (img_file (image o)).

Definition canvas_entries (c : CanvasComponent) : list SidebarEntry := layer_entry <$> view c.

(** The pending reads with the ids their layers will receive. *)
Definition pending_entries (c : CanvasComponent) : list SidebarEntry :=
  zip_with MkEntry (seqZ (nextId c) (Z.of_nat (length (pending c)))) (pending c).

Definition synced (a : App) : Prop :=
  files (app_sidebar a) ≡ₚ canvas_entries (app_canvas a) ++ pending_entries (app_canvas a) /\
  sb_nextId (app_sidebar a) = nextId (app_canvas a) + Z.of_nat (length (pending (app_canvas a))).

Definition app_ok (cw ch : Z) (a : App) : Prop :=
  canvas_wf cw ch (app_canvas a) /\ flags_ok (app_canvas a) /\ synced a.

#[export] Instance synced_dec a : Decision (synced a).
Proof. unfold synced. apply _. Defined.

#[export] Instance app_ok_dec cw ch a : Decision (app_ok cw ch a).
Proof. unfold app_ok. apply _. Defined.

Definition pending_ids (c : CanvasComponent) : list Z := entry_id <$> pending_entries c.

(** The events the agreement relies on: a picked file decodes, the oldest
    read completes first and decodes, a deleted entry is not still loading,
    a move-down names a layer on the canvas, a press starts from the idle
    state. *)
Definition good_event (a : App) (ev : UIEvent) : Prop :=
  match ev with
  | PickFiles fs => Forall decodable (take 1 fs)
  | ReadDone k => k = 0%nat /\ match head (pending (app_canvas a)) with Some f => decodable f | None => False end
  | ClickDelete i => i ∉ pending_ids (app_canvas a)
  | ClickUp i => True
  | ClickDown i => Exists (fun o => id o = i) (view (app_canvas a))
  | PointerEv e => bracketed (app_canvas a) e
  end.

(** A sequence of good events, each judged in the state it meets. *)
Fixpoint good_trace (cw ch : Z) (a : App) (evs : list UIEvent) : Prop :=
  match evs with
  | [] => True
  | ev :: evs' => good_event a ev /\ good_trace cw ch (app_step cw ch a ev) evs'
  end.

#[export] Instance decodable_dec f : Decision (decodable f).
Proof.
  unfold decodable. destruct (file_dims f) as [[w h]|].
  - destruct (decide (0 <= w /\ 0 <= h)) as [[]|Hn]; [left; eauto|right; intros (? & ? & [= <- <-] & ? & ?); tauto].
  - right. by intros (? & ? & ? & _).
Defined.

#[export] Instance bracketed_dec st e : Decision (bracketed st e).
Proof. destruct e; simpl; apply _. Defined.

#[export] Instance good_event_dec a ev : Decision (good_event a ev).
Proof. destruct ev; simpl; try apply _. destruct (head _); apply _. Defined.

#[export] Instance good_trace_dec cw ch a evs : Decision (good_trace cw ch a evs).
Proof. revert a. induction evs as [|ev evs IH]; intros a; simpl; apply _. Defined.

(** ** Facts *)

Lemma run_canvas_normal m sb a c' :
  m (app_canvas a) = (Normal tt, c') -> run_canvas m sb a = MkApp sb c' (app_errors a).
Proof. intros H. unfold run_canvas. by rewrite H. Qed.

Lemma emit_all_one {St} (L : SidebarListener St) e s : emit_all L [e] s = emit L e s.
Proof. cbn [emit_all]. rewrite js_bind_run. by destruct (emit L e s) as [[[]|?] ?]. Qed.

Lemma canvas_entries_keys c :
  canvas_entries c = (fun k : Z * Image => MkEntry k.1 (img_file k.2)) <$> (layer_key <$> view c).
Proof. unfold canvas_entries. by rewrite <-list_fmap_compose. Qed.

Lemma pending_entries_snoc c f :
  pending_entries (set_pending (pending c ++ [f]) c)
  = pending_entries c ++ [MkEntry (nextId c + Z.of_nat (length (pending c))) f].
Proof.
  unfold pending_entries. cbn [pending nextId set_pending]. rewrite length_app. cbn [length].
  rewrite Nat2Z.inj_add, seqZ_app by lia.
  rewrite zip_with_app by (by rewrite length_seqZ, Nat2Z.id). f_equal.
Qed.

Lemma pending_entries_cons c f P :
  pending c = f :: P ->
  pending_entries c = MkEntry (nextId c) f :: zip_with MkEntry (seqZ (nextId c + 1) (Z.of_nat (length P))) P.
Proof.
  intros Hp. unfold pending_entries. rewrite Hp, length_cons, Nat2Z.inj_succ, (seqZ_cons (nextId c)) by lia.
  by rewrite Z.pred_succ.
Qed.

Lemma filter_entries_delete i ls :
  filter (fun e => entry_id e <> i) (layer_entry <$> ls) = layer_entry <$> LayerStack.delete i ls.
Proof.
  unfold LayerStack.delete. induction ls as [|o ls IH]; [done|].
  rewrite fmap_cons, !filter_cons. simpl. case_decide; by rewrite IH.
Qed.

Lemma filter_all_kept i (es : list SidebarEntry) :
  i ∉ entry_id <$> es -> filter (fun e => entry_id e <> i) es = es.
Proof.
  induction es as [|e es IH]; intros Hn; [done|]. rewrite fmap_cons, not_elem_of_cons in Hn.
  destruct Hn as [Hne Hn]. rewrite filter_cons_True by (simpl; congruence). by rewrite IH.
Qed.

Section Sync.
Context (cw ch : Z) (Hcw : 0 <= cw) (Hch : 0 <= ch).

(** A canvas change that keeps the layers up to order, the counter and the
    pending reads keeps the agreement. *)
Lemma synced_canvas sb c c' errs errs' :
  synced (MkApp sb c errs) -> canvas_entries c' ≡ₚ canvas_entries c ->
  pending c' = pending c -> nextId c' = nextId c -> synced (MkApp sb c' errs').
Proof.
  intros [Hf Hn] Hp HP HN. unfold synced in *. cbn [app_sidebar app_canvas] in *.
  unfold pending_entries in *. rewrite HP, HN. split; [|done]. by rewrite Hf, Hp.
Qed.

Lemma same_layers_entries c c' : same_layers c c' -> canvas_entries c' = canvas_entries c.
Proof. intros [Hk _]. by rewrite !canvas_entries_keys, Hk. Qed.

Lemma step_pick a fs :
  app_ok cw ch a -> Forall decodable (take 1 fs) ->
  app_ok cw ch (app_step cw ch a (PickFiles fs)) /\ app_errors (app_step cw ch a (PickFiles fs)) = app_errors a.
Proof.
  intros (Hwf & Hf & Hs & Hn) Hd. destruct fs as [|f fs].
  - destruct a as [sb c errs]. by split; [split_and!|].
  - apply Forall_inv in Hd as (w & h & Hfd & Hw & Hh).
    unfold app_step, sidebar_then_canvas. rewrite onFileChange_ids. cbn [fst snd].
    rewrite (run_canvas_normal _ _ _ (set_pending (pending (app_canvas a) ++ [f]) (app_canvas a)))
      by (rewrite emit_all_one; reflexivity).
    split; [|done]. split_and!; cbn [app_canvas app_sidebar files sb_nextId].
    + apply wf_set_pending; [done|]. apply Forall_app. split; [apply Hwf|].
      constructor; [unfold file_ok; rewrite Hfd; lia|done].
    + flags_conv.
    + split; cbn [app_canvas app_sidebar files sb_nextId].
      * rewrite pending_entries_snoc, Hn, app_assoc. by apply Permutation_app_tail.
      * cbn [pending set_pending]. rewrite Hn, length_app, Nat2Z.inj_add. simpl. lia.
Qed.

Lemma step_read a :
  app_ok cw ch a -> good_event a (ReadDone 0) ->
  app_ok cw ch (app_step cw ch a (ReadDone 0)) /\ app_errors (app_step cw ch a (ReadDone 0)) = app_errors a.
Proof.
  destruct a as [sb c errs]. intros (Hwf & Hf & Hs & Hn) [_ Hd]. cbn [app_canvas app_sidebar] in *.
  destruct (pending c) as [|f P] eqn:Hp; [done|]. destruct Hd as (w & h & Hfd & Hw & Hh).
  assert (Hwf1 : canvas_wf cw ch (set_pending P c)).
  { apply wf_set_pending; [done|]. pose proof (wf_pending _ _ _ Hwf) as HP. rewrite Hp in HP. by inversion HP. }
  destruct (next_fresh cw ch c Hwf) as [Hfresh _].
  unfold app_step. erewrite run_canvas_normal.
  2:{ cbn [app_canvas]. rewrite (file_loaded_run cw ch c 0 f) by (by rewrite Hp). rewrite Hfd, Hp.
      by apply img_onload_run. }
  split; [|done]. split_and!; cbn [app_canvas app_sidebar].
  - by apply wf_set_crc, wf_after_push.
  - unfold flags_ok. cbn. apply map_Forall_insert_2; [|exact Hf].
    case_decide as Hsel; [|done]. pose proof (wf_sel _ _ _ Hwf) as Hl. unfold sel_live in Hl.
    rewrite Hsel, Hfresh in Hl. by destruct Hl.
  - split; cbn [app_canvas app_sidebar].
    + rewrite Hs, (pending_entries_cons c f P Hp). unfold canvas_entries.
      rewrite view_set_crc, view_after_push by done. unfold LayerStack.add.
      rewrite fmap_app, <-app_assoc. reflexivity.
    + cbn. rewrite Hn, length_cons. lia.
Qed.

Lemma step_delete a i :
  app_ok cw ch a -> i ∉ pending_ids (app_canvas a) ->
  app_ok cw ch (app_step cw ch a (ClickDelete i)) /\ app_errors (app_step cw ch a (ClickDelete i)) = app_errors a.
Proof.
  destruct a as [sb c errs]. intros (Hwf & Hf & Hs & Hn) Hi. cbn [app_canvas app_sidebar] in *.
  unfold app_step, sidebar_then_canvas, onDelete. cbn [fst snd app_sidebar].
  erewrite run_canvas_normal by (rewrite emit_all_one; exact (onDeleteSelected_run cw ch c i Hwf)).
  split; [|done]. split_and!; cbn [app_canvas].
  - by apply wf_set_crc, wf_filter.
  - flags_conv.
  - split; cbn [app_canvas app_sidebar files sb_nextId]; [|done].
    rewrite Hs, filter_app, (filter_all_kept i (pending_entries c)) by done.
    unfold canvas_entries. rewrite filter_entries_delete, view_set_crc, (view_filter cw ch) by done. done.
Qed.

(** A reordering of the layers keeps the agreement. *)
Lemma step_reorder a sb' (m : CM unit) c' :
  app_ok cw ch a -> m (app_canvas a) = (Normal tt, c') ->
  canvas_wf cw ch c' -> flags_ok c' -> canvas_entries c' ≡ₚ canvas_entries (app_canvas a) ->
  pending c' = pending (app_canvas a) -> nextId c' = nextId (app_canvas a) -> sb' = app_sidebar a ->
  app_ok cw ch (run_canvas m sb' a) /\ app_errors (run_canvas m sb' a) = app_errors a.
Proof.
  destruct a as [sb c errs]. intros (Hwf & Hf & Hs & Hn) Hm Hwf' Hf' Hv HP HN ->.
  rewrite (run_canvas_normal _ _ _ c' Hm). split; [|done]. split_and!; [done|done|].
  by apply (synced_canvas _ c _ errs); [split|..].
Qed.

Lemma step_up a i :
  app_ok cw ch a ->
  app_ok cw ch (app_step cw ch a (ClickUp i)) /\ app_errors (app_step cw ch a (ClickUp i)) = app_errors a.
Proof.
  intros Hok. pose proof Hok as (Hwf & Hf & _).
  pose proof (onMoveUpSelected_run cw ch _ i Hwf) as Hrun. simpl in Hrun.
  unfold app_step, sidebar_then_canvas, onMoveUp. cbn [fst snd].
  destruct (0 <? _); (eapply step_reorder; [done|rewrite emit_all_one; exact Hrun| | | |done|done|done]).
  - by apply wf_set_crc, wf_swap.
  - flags_conv.
  - unfold canvas_entries. rewrite view_set_crc, (view_swap cw ch) by done. by rewrite swap_at_perm.
  - done.
  - done.
  - done.
Qed.

Lemma step_down a i :
  app_ok cw ch a -> Exists (fun o => id o = i) (view (app_canvas a)) ->
  app_ok cw ch (app_step cw ch a (ClickDown i)) /\ app_errors (app_step cw ch a (ClickDown i)) = app_errors a.
Proof.
  intros Hok Hex. pose proof Hok as (Hwf & Hf & _).
  pose proof (onMoveDownSelected_run cw ch _ i Hwf (index_of_found i _ Hex)) as Hrun. simpl in Hrun.
  unfold app_step, sidebar_then_canvas, onMoveDown. cbn [fst snd].
  destruct (_ <? _); (eapply step_reorder; [done|rewrite emit_all_one; exact Hrun| | | |done|done|done]).
  - by apply wf_set_crc, wf_swap.
  - flags_conv.
  - unfold canvas_entries. rewrite view_set_crc, (view_swap cw ch) by done. by rewrite swap_at_perm.
  - done.
  - done.
  - done.
Qed.

Lemma step_pointer a e :
  app_ok cw ch a -> bracketed (app_canvas a) e ->
  app_ok cw ch (app_step cw ch a (PointerEv e)) /\ app_errors (app_step cw ch a (PointerEv e)) = app_errors a.
Proof.
  intros Hok Hb. pose proof Hok as (Hwf & Hf & _).
  destruct (pointer_step cw ch _ e Hwf Hf Hb) as (Hrun & Hwf' & Hf' & _ & Hsame).
  eapply step_reorder; [done|by apply exec_normal|done|done| | | |done].
  - by rewrite (same_layers_entries _ _ Hsame).
  - apply Hsame.
  - apply Hsame.
Qed.

Lemma app_step_ok a ev :
  app_ok cw ch a -> good_event a ev ->
  app_ok cw ch (app_step cw ch a ev) /\ app_errors (app_step cw ch a ev) = app_errors a.
Proof.
  intros Hok Hg. destruct ev as [fs|i|i|i|e|k]; cbn [good_event] in Hg.
  - by apply step_pick.
  - by apply step_delete.
  - by apply step_up.
  - by apply step_down.
  - by apply step_pointer.
  - destruct Hg as [-> Hd]. by apply step_read.
Qed.

Lemma run_app_ok a evs :
  app_ok cw ch a -> good_trace cw ch a evs ->
  app_ok cw ch (run_app cw ch a evs) /\ app_errors (run_app cw ch a evs) = app_errors a.
Proof.
  revert a. induction evs as [|ev evs IH]; intros a Hok Hg; [done|].
  destruct Hg as [Hg Hgs]. destruct (app_step_ok a ev Hok Hg) as [Hok' He].
  unfold run_app. cbn [foldl]. rewrite <-He. by apply IH.
Qed.

Lemma app_init_ok : app_ok cw ch (app_init cw ch).
Proof.
  split_and!; [by apply wf_canvas_init|apply map_Forall_empty|by split].
Qed.

(** C7: The two numberings agree on every run of good events from the
    start page: after any such sequence the canvas is well formed, its
    flags agree with the selection, no handler has thrown, and the
    sidebar's entries are, up to order, the canvas's layers (id and file)
    followed by the pending reads with the ids they will receive; the
    sidebar's counter is the canvas's counter plus the number of pending
    reads. *)
Theorem app_run_synced evs :
  good_trace cw ch (app_init cw ch) evs ->
  let a := run_app cw ch (app_init cw ch) evs in
  app_ok cw ch a /\ app_errors a = [].
Proof. intros Hg. apply (run_app_ok _ evs app_init_ok Hg). Qed.
End Sync.

Definition file_a : File := demo_file "a.png".
Definition file_b : File := demo_file "b.png".

(** A session: two files picked and loaded, the second moved up, dragged,
    the first deleted. *)
Definition session : list UIEvent :=
  [PickFiles [file_a]; PickFiles [file_b]; ReadDone 0; ReadDone 0; ClickUp 1;
   PointerEv (Down 60 60); PointerEv (Move 90 80); PointerEv Up; ClickDelete 0].

Lemma app_run_synced_witness :
  good_trace 800 600 (app_init 800 600) session /\
  app_errors (run_app 800 600 (app_init 800 600) session) = [].
Proof.
  assert (Hg : good_trace 800 600 (app_init 800 600) session)
    by (apply (bool_decide_unpack _); vm_compute; reflexivity).
  split; [exact Hg|]. exact (proj2 (app_run_synced 800 600 ltac:(lia) ltac:(lia) session Hg)).
Defined.

(** ** Where the numberings drift apart *)

Lemma zip_entries_ge m (P : list File) e :
  e ∈ zip_with MkEntry (seqZ m (Z.of_nat (length P))) P -> m <= entry_id e.
Proof.
  revert m. induction P as [|f P IH]; intros m He; [by apply elem_of_nil in He|].
  rewrite length_cons, Nat2Z.inj_succ, seqZ_cons, Z.pred_succ in He by lia.
  cbn [zip_with] in He. apply elem_of_cons in He as [->|He]; [simpl; lia|].
  specialize (IH (Z.succ m) He). lia.
Qed.

Section Drift.
Context (cw ch : Z) (Hcw : 0 <= cw) (Hch : 0 <= ch).

Lemma canvas_entries_below c e :
  canvas_wf cw ch c -> e ∈ canvas_entries c -> entry_id e < nextId c.
Proof.
  intros Hwf He. unfold canvas_entries, view in He.
  apply list_elem_of_fmap in He as (o & -> & Ho). apply list_elem_of_omap in Ho as (l & _ & Hl).
  destruct (wf_heap _ _ _ Hwf l o Hl) as (Hid & Hlt & _). simpl. lia.
Qed.

(** C13: A chosen file that does not decode: the sidebar has listed it
    and advanced its counter, but the canvas drops the read without
    advancing its own. From then on the sidebar's counter runs one ahead,
    so the next file's entry and layer get different ids and the two lists
    no longer agree. *)
Theorem undecodable_read_drifts a f :
  app_ok cw ch a -> head (pending (app_canvas a)) = Some f -> file_dims f = None ->
  let a' := app_step cw ch a (ReadDone 0) in
  sb_nextId (app_sidebar a') = nextId (app_canvas a') + Z.of_nat (length (pending (app_canvas a'))) + 1 /\
  ~ synced a'.
Proof.
  destruct a as [sb c errs]. intros (Hwf & Hf & Hs & Hn) Hh Hd. cbn [app_canvas app_sidebar] in *.
  destruct (pending c) as [|f' P] eqn:Hp; [done|]. injection Hh as ->.
  unfold app_step. cbn [app_canvas app_sidebar].
  rewrite (run_canvas_normal _ _ _ (set_pending P c)).
  2:{ cbn [app_canvas]. rewrite (file_loaded_run cw ch c 0 f) by (by rewrite Hp). by rewrite Hd, Hp. }
  rewrite length_cons, Nat2Z.inj_succ in Hn. cbn. rewrite Hn. split; [lia|]. intros [_ Hn']. cbn in Hn'. lia.
Qed.

(** C15: Deleting an entry whose read is still pending: the sidebar drops
    the entry but the canvas, having no layer with that id yet, keeps the
    read; when it completes, a layer with the deleted id appears that no
    entry of the sidebar lists. *)
Theorem delete_while_loading_orphans a i :
  app_ok cw ch a -> i ∈ pending_ids (app_canvas a) ->
  let a' := app_step cw ch a (ClickDelete i) in
  (i ∉ entry_ids (app_sidebar a')) /\ i ∈ pending_ids (app_canvas a') /\ ~ synced a'.
Proof.
  destruct a as [sb c errs]. intros (Hwf & Hf & Hs & Hn) Hi. cbn [app_canvas app_sidebar] in *.
  unfold app_step, sidebar_then_canvas, onDelete. cbn [fst snd app_sidebar].
  erewrite run_canvas_normal by (rewrite emit_all_one; exact (onDeleteSelected_run cw ch c i Hwf)).
  cbn [app_sidebar app_canvas].
  assert (Hgone : forall e, e ∈ filter (fun f => entry_id f <> i) (files sb) -> entry_id e <> i)
    by (intros e; rewrite list_elem_of_filter; tauto).
  split_and!; [|exact Hi|].
  - unfold entry_ids. cbn [files]. intros (e & He & Hin)%list_elem_of_fmap. by apply (Hgone e).
  - intros [Hs' _]. cbn [app_sidebar app_canvas files] in Hs'.
    apply list_elem_of_fmap in Hi as (e & He & Hin). apply (Hgone e); [|done].
    rewrite Hs'. apply elem_of_app. by right.
Qed.

(** C14: Reads that complete out of order: when the second pending read
    completes first, the canvas gives its layer the id the sidebar gave the
    first file, so the sidebar lists no entry with that id and file, and
    deleting or moving by the ids the sidebar shows acts on the wrong
    layers. *)
Theorem out_of_order_read_misattributes a f1 f2 P :
  app_ok cw ch a -> pending (app_canvas a) = f1 :: f2 :: P -> decodable f2 -> f1 <> f2 ->
  let a' := app_step cw ch a (ReadDone 1) in
  MkEntry (nextId (app_canvas a)) f2 ∈ canvas_entries (app_canvas a') /\
  (MkEntry (nextId (app_canvas a)) f2 ∉ files (app_sidebar a')) /\ ~ synced a'.
Proof.
  destruct a as [sb c errs]. intros (Hwf & Hf & Hs & Hn) Hp (w & h & Hfd & Hw & Hh) Hne.
  cbn [app_canvas app_sidebar] in *.
  assert (Hwf1 : canvas_wf cw ch (set_pending (f1 :: P) c)).
  { apply wf_set_pending; [done|]. pose proof (wf_pending _ _ _ Hwf) as HP. rewrite Hp in HP.
    apply Forall_cons in HP as [? HP]. apply Forall_cons in HP as [? ?]. by constructor. }
  unfold app_step. erewrite run_canvas_normal.
  2:{ cbn [app_canvas]. rewrite (file_loaded_run cw ch c 1 f2) by (by rewrite Hp). rewrite Hfd, Hp.
      by apply img_onload_run. }
  cbn [app_sidebar app_canvas].
  assert (Hnot : MkEntry (nextId c) f2 ∉ files sb).
  { rewrite Hs, (pending_entries_cons c f1 (f2 :: P) Hp). intros [Hc|Hc]%elem_of_app.
    - pose proof (canvas_entries_below c _ Hwf Hc) as Hlt. simpl in Hlt. lia.
    - apply elem_of_cons in Hc as [[= Heq]|Hc]; [done|]. apply zip_entries_ge in Hc. simpl in Hc. lia. }
  assert (Hin : MkEntry (nextId c) f2 ∈ canvas_entries (set_crc (redrawn cw ch
                 (view (after_push cw ch (set_pending (f1 :: P) c) (MkImage f2 w h))) (crc c))
                 (after_push cw ch (set_pending (f1 :: P) c) (MkImage f2 w h)))).
  { unfold canvas_entries. rewrite view_set_crc, view_after_push by done. unfold LayerStack.add.
    rewrite fmap_app. apply elem_of_app. right. by apply list_elem_of_singleton. }
  split_and!; [exact Hin|exact Hnot|]. intros [Hs' _]. apply Hnot. cbn [app_sidebar app_canvas] in Hs'.
  rewrite Hs'. apply elem_of_app. by left.
Qed.
End Drift.

(** Decide a closed proposition about concrete states by evaluation. *)
Ltac decide_closed := apply (bool_decide_unpack _); vm_compute; reflexivity.

Definition notes_txt : File := MkFile "notes.txt" None.

(** The user's view of the drift: after "notes.txt" fails to decode and
    "a.png" loads, the sidebar lists "a.png" under id 1 while its layer has
    id 0, so deleting the "notes.txt" entry (id 0) removes the image of
    "a.png" from the canvas and leaves its entry. *)
Lemma undecodable_read_drifts_witness :
  let a := run_app 800 600 (app_init 800 600) [PickFiles [notes_txt]] in
  app_ok 800 600 a /\ head (pending (app_canvas a)) = Some notes_txt /\
  ~ synced (app_step 800 600 a (ReadDone 0)) /\
  let a2 := run_app 800 600 (app_step 800 600 a (ReadDone 0))
              [PickFiles [file_a]; ReadDone 0; ClickDelete 0] in
  entry_ids (app_sidebar a2) = [1] /\ view (app_canvas a2) = [].
Proof.
  assert (Hok : app_ok 800 600 (run_app 800 600 (app_init 800 600) [PickFiles [notes_txt]])) by decide_closed.
  split_and!; [exact Hok|reflexivity| |vm_compute; split; reflexivity].
  exact (proj2 (undecodable_read_drifts 800 600 _ notes_txt Hok eq_refl eq_refl)).
Defined.

(** Deleting "a.png" while it loads: the sidebar is empty but the canvas
    shows the image once the read completes. *)
Lemma delete_while_loading_orphans_witness :
  let a := run_app 800 600 (app_init 800 600) [PickFiles [file_a]] in
  app_ok 800 600 a /\ 0 ∈ pending_ids (app_canvas a) /\
  ~ synced (app_step 800 600 a (ClickDelete 0)) /\
  let a2 := app_step 800 600 (app_step 800 600 a (ClickDelete 0)) (ReadDone 0) in
  entry_ids (app_sidebar a2) = [] /\ layer_key <$> view (app_canvas a2) = [(0, MkImage file_a 50 50)].
Proof.
  assert (Hok : app_ok 800 600 (run_app 800 600 (app_init 800 600) [PickFiles [file_a]])) by decide_closed.
  assert (Hi : 0 ∈ pending_ids (app_canvas (run_app 800 600 (app_init 800 600) [PickFiles [file_a]])))
    by decide_closed.
  split_and!; [exact Hok|exact Hi| |vm_compute; split; reflexivity].
  exact (proj2 (proj2 (delete_while_loading_orphans 800 600 _ 0 Hok Hi))).
Defined.

(** "b.png" finishing before "a.png": its layer takes id 0, which the
    sidebar gave "a.png"; deleting the "a.png" entry then removes the image
    of "b.png". *)
Lemma out_of_order_read_misattributes_witness :
  let a := run_app 800 600 (app_init 800 600) [PickFiles [file_a]; PickFiles [file_b]] in
  app_ok 800 600 a /\ pending (app_canvas a) = [file_a; file_b] /\ decodable file_b /\ file_a <> file_b /\
  ~ synced (app_step 800 600 a (ReadDone 1)) /\
  let a2 := run_app 800 600 (app_step 800 600 a (ReadDone 1)) [ReadDone 0; ClickDelete 0] in
  entry_ids (app_sidebar a2) = [1] /\ layer_key <$> view (app_canvas a2) = [(1, MkImage file_a 50 50)].
Proof.
  assert (Hok : app_ok 800 600 (run_app 800 600 (app_init 800 600) [PickFiles [file_a]; PickFiles [file_b]]))
    by decide_closed.
  assert (Hd : decodable file_b) by decide_closed.
  assert (Hne : file_a <> file_b) by decide_closed.
  split_and!; [exact Hok|reflexivity|exact Hd|exact Hne| |vm_compute; split; reflexivity].
  exact (proj2 (proj2 (out_of_order_read_misattributes 800 600 ltac:(lia) ltac:(lia) _ file_a file_b [] Hok eq_refl Hd Hne))).
Defined.
